(** * cmd/root.go: the invocation layer of the workflow runner

    A shallow embedding of the parts of [cmd/root.go] that decide what is
    run and how the run is driven:

    - [args] / [readArgsFile]      the configuration-file argument loader;
    - [parseEnvs] / [readEnvs]     the key=value overlay of env, input and
                                   secret maps;
    - [filterPlan] / [execPlan]    the two plan resolutions of [newRunCommand];
    - [runTail]                    the artifact-service lifecycle around the
                                   plan executor;
    - [Watch]                      the goroutine of [watchAndRun] and the
                                   function that waits for cancellation, as an
                                   interleaving transition system.

    Go strings are byte strings ([string]); a map[string]string is a
    [gmap string string]; a nil error is [None]. *)

From Stdlib Require Import Ascii String.
From stdpp Require Import gmap strings list fin_maps.

Local Open Scope stdpp_scope.

(** ** Go values *)

(** An [error] value is represented by its message; [option error] is a
    possibly-nil error. *)
Abbreviation error := string (only parsing).

(** * ConfigArgsLoader *)

Module GoStrings.

(** [strings.HasPrefix(s, prefix)]. *)
Definition HasPrefix (s prefix : string) : bool := String.prefix prefix s.

(** The class [\s] of Go's regexp syntax: [[\t\n\f\r ]] (no vertical tab). *)
Definition re_space (c : ascii) : bool :=
  match c with
  | "009" | "010" | "012" | "013" | " " => true
  | _ => false
  end%char.

(** Leftmost match of [\s] in [s]: the text before it and the text after
    it, [None] when nothing matches. *)
Fixpoint first_space (s : string) : option (string * string) :=
  match s with
  | EmptyString => None
  | String c rest =>
      if re_space c then Some (EmptyString, rest)
      else match first_space rest with
           | Some (before, after) => Some (String c before, after)
           | None => None
           end
  end.

(** [regexp.MustCompile(`\s`).Split(s, 2)]: the empty string gives one
    empty piece; otherwise the text is cut at the leftmost match only,
    and the remainder is kept whole. *)
Definition regexpSplit2 (s : string) : list string :=
  match s with
  | EmptyString => [EmptyString]
  | _ => match first_space s with
         | Some (before, after) => [before; after]
         | None => [s]
         end
  end.

(** No byte of [s] is matched by [\s]. *)
Fixpoint no_space (s : string) : bool :=
  match s with
  | EmptyString => true
  | String c rest => negb (re_space c) && no_space rest
  end.

(** Leftmost match of the separator byte [sep]. *)
Fixpoint first_byte (sep : ascii) (s : string) : option (string * string) :=
  match s with
  | EmptyString => None
  | String c rest =>
      if Ascii.eqb c sep then Some (EmptyString, rest)
      else match first_byte sep rest with
           | Some (before, after) => Some (String c before, after)
           | None => None
           end
  end.

(** [strings.SplitN(s, "=", 2)]. *)
Definition SplitN_eq2 (s : string) : list string :=
  match first_byte "="%char s with
  | Some (before, after) => [before; after]
  | None => [s]
  end.

(** [strings.TrimSpace] restricted to the six ASCII white-space bytes,
    which is what Go does on a string without bytes above 0x7F. *)
Fixpoint trim_left (s : string) : string :=
  match s with
  | String c rest => if Ascii.is_space c then trim_left rest else s
  | EmptyString => EmptyString
  end.

Definition asciiTrimSpace (s : string) : string :=
  String.rev (trim_left (String.rev (trim_left s))).

End GoStrings.

Import GoStrings.

Section ConfigArgsLoader.

(** [strings.TrimSpace] is Unicode aware; nothing below depends on which
    code points it removes, so it is a parameter of the loader. *)
Variable TrimSpace : string -> string.

(** The files that [os.Open] can open, each with the lines that
    [bufio.Scanner] yields for it. *)
Variable fs : gmap string (list string).

(** One iteration of the scanner loop of [readArgsFile]. *)
Definition readArgsLine (split : bool) (args : list string) (text : string)
  : list string :=
  let arg := TrimSpace text in
  if HasPrefix arg "-" && split then args ++ regexpSplit2 arg
  else if negb split then args ++ [arg]
  else args.

Definition readArgsFile (file : string) (split : bool) : list string :=
  let args := [] in
  match fs !! file with
  | None => args
  | Some lines => fold_left (readArgsLine split) lines args
  end.

(** [os.Args[1:]]: slicing an empty vector from index 1 panics. *)
Definition slice_from_1 (os_Args : list string) : option (list string) :=
  match os_Args with
  | [] => None
  | _ :: rest => Some rest
  end.

(** [args()], with [configLocations()] and [os.Args] as inputs. *)
Definition args (actrc : list string) (os_Args : list string)
  : option (list string) :=
  let args := fold_left (fun args f => args ++ readArgsFile f true) actrc [] in
  match slice_from_1 os_Args with
  | Some rest => Some (args ++ rest)
  | None => None
  end.

(** What a line contributes in split mode. *)
Definition split_tokens (text : string) : list string :=
  let arg := TrimSpace text in
  if HasPrefix arg "-" then regexpSplit2 arg else [].

End ConfigArgsLoader.

(** * KeyValueOverlay *)

(** [log.Fatalf] ends the process: a computation either dies with a
    message or goes on with a value. *)
Inductive result (A : Type) : Type :=
| Fatal (msg : string)
| Ok (a : A).
Arguments Fatal {A} msg.
Arguments Ok {A} a.

Definition result_bind {A B} (r : result A) (k : A -> result B) : result B :=
  match r with
  | Fatal msg => Fatal msg
  | Ok a => k a
  end.

Notation "'try!' p := r 'in' k" := (result_bind r (fun p => k))
  (at level 10, p pattern, r at level 100, k at level 200).

Section KeyValueOverlay.

(** The files [os.Stat] finds, each with what [godotenv.Read] returns for
    it: an error, or the parsed map. *)
Variable dotenv : gmap string (error + gmap string string).

(** The body of the loop of [parseEnvs]. *)
Definition parseEnv (envs : gmap string string) (envVar : string)
  : gmap string string :=
  let e := SplitN_eq2 envVar in
  if decide (length e = 2) then <[nth 0 e "" := nth 1 e ""]> envs
  else <[nth 0 e "" := ""]> envs.

(** [parseEnvs(env, envs)]: a nil slice is [None]. The map is updated in
    place; here the updated map is returned next to the boolean. *)
Definition parseEnvs (env : option (list string)) (envs : gmap string string)
  : bool * gmap string string :=
  match env with
  | Some env => (true, fold_left parseEnv env envs)
  | None => (false, envs)
  end.

(** [readEnvs(path, envs)]. *)
Definition readEnvs (path : string) (envs : gmap string string)
  : result (bool * gmap string string) :=
  match dotenv !! path with
  | Some (inr env) =>
      Ok (true, map_fold (fun k v envs => <[k:=v]> envs) envs env)
  | Some (inl err) => Fatal err
  | None => Ok (false, envs)
  end.

(** [path] is missing, or [godotenv.Read] parses it. *)
Definition readable (path : string) : bool :=
  match dotenv !! path with
  | Some (inl _) => false
  | _ => true
  end.

(** [newSecrets] is declared in another file of the package. *)
Variable newSecrets : list string -> gmap string string.

(** The settings of [Input] read by lines 314-326 of [newRunCommand],
    with the paths that [Envfile()], [Inputfile()] and [Secretfile()]
    resolve to. *)
Record OverlayInput := {
  envs : option (list string);
  inputs : option (list string);
  secrets : list string;
  Envfile : string;
  Inputfile : string;
  Secretfile : string
}.

(** Lines 314-326 of [newRunCommand]: the env, input and secret maps. *)
Definition loadMaps (input : OverlayInput)
  : result (gmap string string * gmap string string * gmap string string) :=
  let envs0 := (parseEnvs (envs input) ∅).2 in
  try! (_, envs1) := readEnvs (Envfile input) envs0 in
  let inputs0 := (parseEnvs (inputs input) ∅).2 in
  try! (_, inputs1) := readEnvs (Inputfile input) inputs0 in
  let secrets0 := newSecrets (secrets input) in
  try! (_, secrets1) := readEnvs (Secretfile input) secrets0 in
  Ok (envs1, inputs1, secrets1).

(** The key of an explicit token, and the value it carries. *)
Definition token_key (envVar : string) : string := nth 0 (SplitN_eq2 envVar) "".

Definition token_value (envVar : string) : string :=
  let e := SplitN_eq2 envVar in
  if decide (length e = 2) then nth 1 e "" else "".

End KeyValueOverlay.

(** * EventPlanResolver *)

(** The workflow planner, as far as [newRunCommand] uses it. *)
Record Planner (Plan : Type) := {
  GetEvents : list string;
  PlanJob : string -> Plan;
  PlanEvent : string -> Plan;
  PlanAll : Plan
}.
Arguments GetEvents {Plan} _.
Arguments PlanJob {Plan} _ _.
Arguments PlanEvent {Plan} _ _.
Arguments PlanAll {Plan} _.

(** The planner whose plans are the requests themselves: two plans are
    equal exactly when they were asked for in the same way. *)
Inductive PlanRequest : Type :=
| ForJob (jobID : string)
| ForEvent (eventName : string)
| ForAll.

Definition requests (events : list string) : Planner PlanRequest :=
  {| GetEvents := events; PlanJob := ForJob; PlanEvent := ForEvent;
     PlanAll := ForAll |}.

Section EventPlanResolver.

Context {Plan : Type} (planner : Planner Plan).

(** [args]: the positional arguments (cobra admits at most one);
    [autodetectEvent]: the --detect-event flag; [jobID]: the --job flag,
    empty when it was not given. *)
Variables (args : list string) (autodetectEvent : bool) (jobID : string).

(** Lines 357-367. *)
Definition filterEventName : string :=
  let events := GetEvents planner in
  if decide (0 < length args) then nth 0 args ""
  else if decide (autodetectEvent = true ∧ 0 < length events
                  ∧ 0 < String.length (nth 0 events ""))
       then nth 0 events ""
  else "".

(** Lines 369-378. *)
Definition filterPlan : Plan :=
  if decide (jobID ≠ "") then PlanJob planner jobID
  else if decide (filterEventName ≠ "") then PlanEvent planner filterEventName
  else PlanAll planner.

(** Lines 394-408. *)
Definition eventName : string :=
  let events := GetEvents planner in
  if decide (0 < length args) then nth 0 args ""
  else if decide (length events = 1 ∧ 0 < String.length (nth 0 events ""))
       then nth 0 events ""
  else if decide (autodetectEvent = true ∧ 0 < length events
                  ∧ 0 < String.length (nth 0 events ""))
       then nth 0 events ""
  else "push".

(** Lines 411-417. *)
Definition execPlan : Plan :=
  if decide (jobID ≠ "") then PlanJob planner jobID
  else PlanEvent planner eventName.

End EventPlanResolver.

(** * ExecutionLifecycle *)

(** What the collaborators do to the outside world, as far as this layer
    can tell: the artifact service starts, the artifact service is
    cancelled, the plan executor runs. *)
Inductive event : Type := SvcStart | SvcStop | ExecRun.

Global Instance event_eq_dec : EqDecision event.
Proof. solve_decision. Defined.

(** The world is the trace of what happened so far. *)
Abbreviation World := (list event) (only parsing).

Definition count (e : event) (w : World) : nat :=
  length (filter (fun x => x = e) w).

(** Effectful code threads the world. *)
Definition M (A : Type) : Type := World -> A * World.

Definition mret {A} (a : A) : M A := fun w => (a, w).

Definition mbind' {A B} (c : M A) (k : A -> M B) : M B :=
  fun w => let '(a, w') := c w in k a w'.

Definition emit (e : event) : M unit := fun w => (tt, w ++ [e]).

Notation "'run!' x := c 'in' k" := (mbind' c (fun x => k))
  (at level 10, x pattern, c at level 100, k at level 200).

(** [common.Executor]: [func(ctx) error]. *)
Definition Executor := M (option error).

(** Modelled from the spec: [artifacts.Serve], which is not part of this
    file. "Start(context, storagePath, bindAddress, port) ->
    cancellationFunction; no-op behavior when storagePath is empty". *)
Definition Serve (artifactServerPath : string) : M (M unit) :=
  if decide (artifactServerPath = "") then mret (mret tt)
  else run! _ := emit SvcStart in mret (emit SvcStop).

(** Modelled from the spec: [Executor.Finally], which is not part of this
    file. "a follow-up cleanup stage that always runs after the main stage
    regardless of outcome", "execution result takes priority". *)
Definition Finally (e finally : Executor) : Executor :=
  run! err := e in
  run! _ := finally in
  mret err.

(** Modelled from the spec: [r.NewPlanExecutor(plan)], which is not part of
    this file: "a single-shot unit of work returning success/failure". The
    engine is opaque; [outcome k] is what the invocation that follows [k]
    earlier ones returns. *)
Definition NewPlanExecutor (outcome : nat -> option error) : Executor :=
  fun w => (outcome (count ExecRun w), w ++ [ExecRun]).

(** * WatchDriver *)

(** [watchAndRun] runs two threads of control over the shared variable
    [err]: the goroutine with the two nested loops, and the function itself,
    which waits for [ctx.Done()], stops the watcher and returns [err]. The
    model interleaves their steps; a schedule is the list of steps taken. *)
Module Watch.

(** Where the goroutine stands. *)
Inductive loop_pc : Type :=
| AtIsRunning    (* about to evaluate [folderWatcher.IsRunning()] *)
| InFirstPass    (* inside [fn(ctx)] of line 584 *)
| AtRange        (* waiting on [folderWatcher.ChangeDetails()] *)
| InBatchPass    (* inside [fn(ctx)] of line 590 *)
| LoopExit.      (* the goroutine has ended *)

(** Where [watchAndRun] itself stands. *)
Inductive main_pc : Type :=
| AtDone                         (* blocked on [<-ctx.Done()] *)
| AtStop                         (* about to call [folderWatcher.Stop()] *)
| AtReturn                       (* about to evaluate [return err] *)
| Returned (e : option error).   (* [watchAndRun] has returned [e] *)

Record state : Type := {
  loop : loop_pc;
  main : main_pc;
  err : option error;              (* the shared variable [err] *)
  running : bool;                  (* what [IsRunning()] answers *)
  world : World;
  calls : nat;                     (* invocations of [fn] begun so far *)
  passes : list (option error);    (* results of the passes that have
                                      completed, oldest first *)
  batches : nat                    (* change batches received so far *)
}.

(** The steps a schedule is made of. When a change batch arrives, and
    whether the watcher ever closes its channel, is up to the watcher: both
    are steps the environment may take. *)
Inductive label : Type :=
| IsRunning       (* the outer loop condition; when true, [fn] is called *)
| FnReturns       (* the pass in progress returns and [err] is assigned *)
| Changes         (* a change batch is received and [fn] is called *)
| ChannelClosed   (* the range over the channel ends *)
| CtxDone         (* the context is cancelled and [<-ctx.Done()] returns *)
| Stop            (* [folderWatcher.Stop()] *)
| Return.         (* [return err] *)

Definition set_loop (pc : loop_pc) (s : state) : state :=
  {| loop := pc; main := main s; err := err s; running := running s;
     world := world s; calls := calls s; passes := passes s;
     batches := batches s |}.

Definition set_main (pc : main_pc) (s : state) : state :=
  {| loop := loop s; main := pc; err := err s; running := running s;
     world := world s; calls := calls s; passes := passes s;
     batches := batches s |}.

Definition set_running (b : bool) (s : state) : state :=
  {| loop := loop s; main := main s; err := err s; running := b;
     world := world s; calls := calls s; passes := passes s;
     batches := batches s |}.

(** [fn] is called: one more invocation has begun. *)
Definition call (pc : loop_pc) (s : state) : state :=
  {| loop := pc; main := main s; err := err s; running := running s;
     world := world s; calls := S (calls s); passes := passes s;
     batches := batches s |}.

(** [err = fn(ctx)]: the pass completes and its result is assigned. *)
Definition assign_err (fn : Executor) (s : state) : state :=
  let '(r, w) := fn (world s) in
  {| loop := loop s; main := main s; err := r; running := running s;
     world := w; calls := calls s; passes := passes s ++ [r];
     batches := batches s |}.

Definition receive (s : state) : state :=
  {| loop := loop s; main := main s; err := err s; running := running s;
     world := world s; calls := calls s; passes := passes s;
     batches := S (batches s) |}.

Section Steps.

Variable fn : Executor.

(** A step of the goroutine (lines 583-595). *)
Definition loop_step (l : label) (s : state) : option state :=
  match l, loop s with
  | IsRunning, AtIsRunning =>
      if running s then Some (call InFirstPass s)
      else Some (set_loop LoopExit s)
  | FnReturns, InFirstPass =>
      let s' := assign_err fn s in
      if err s' is Some _ then Some (set_loop LoopExit s')   (* break *)
      else Some (set_loop AtRange s')
  | Changes, AtRange => Some (call InBatchPass (receive s))
  | ChannelClosed, AtRange => Some (set_loop AtIsRunning s)
  | FnReturns, InBatchPass =>
      let s' := assign_err fn s in
      if err s' is Some _ then Some (set_loop AtIsRunning s')  (* break *)
      else Some (set_loop AtRange s')
  | _, _ => None
  end.

(** A step of [watchAndRun] itself (lines 597-599). *)
Definition main_step (l : label) (s : state) : option state :=
  match l, main s with
  | CtxDone, AtDone => Some (set_main AtStop s)
  | Stop, AtStop => Some (set_main AtReturn (set_running false s))
  | Return, AtReturn => Some (set_main (Returned (err s)) s)
  | _, _ => None
  end.

(** Nothing is observed once [watchAndRun] has returned. *)
Definition step (l : label) (s : state) : option state :=
  match main s with
  | Returned _ => None
  | _ =>
      match l with
      | CtxDone | Stop | Return => main_step l s
      | _ => loop_step l s
      end
  end.

Fixpoint run (ls : list label) (s : state) : option state :=
  match ls with
  | [] => Some s
  | l :: ls' =>
      match step l s with
      | Some s' => run ls' s'
      | None => None
      end
  end.

End Steps.

(** Lines 559-581: [os.Getwd()] may fail, and then nothing is started;
    otherwise the watcher is started and the goroutine is launched. *)
Definition start (getwd : option error) (w : World) : state :=
  match getwd with
  | Some e =>
      {| loop := LoopExit; main := Returned (Some e); err := Some e;
         running := false; world := w; calls := 0; passes := [];
         batches := 0 |}
  | None =>
      {| loop := AtIsRunning; main := AtDone; err := None;
         running := true; world := w; calls := 0; passes := [];
         batches := 0 |}
  end.

(** The result of the most recent completed pass, nil when there is none. *)
Definition latest (s : state) : option error :=
  match last (passes s) with
  | Some r => r
  | None => None
  end.

End Watch.

(** * The end of [newRunCommand] (lines 498-511) *)

Inductive tail_result : Type :=
| Done (err : option error)
    (* [newRunCommand] returns [err] *)
| Watching (fn : Executor) (s : Watch.state).
    (* [newRunCommand] returns what [watchAndRun(ctx, fn)] returns, which
       begins in state [s] *)

(** [watchFlag] is what [cmd.Flags().GetBool("watch")] returns. *)
Definition runTail (artifactServerPath : string) (watchFlag : error + bool)
    (getwd : option error) (planExecutor : Executor) : M tail_result :=
  run! cancel := Serve artifactServerPath in
  match watchFlag with
  | inl err => mret (Done (Some err))
  | inr true => fun w => (Watching planExecutor (Watch.start getwd w), w)
  | inr false =>
      let executor :=
        Finally planExecutor (run! _ := cancel in mret None) in
      run! err := executor in
      mret (Done err)
  end.

(** What [newRunCommand] returns, and the world it leaves behind, when the
    watch loop (if any) takes the steps [ls]: nothing follows the return of
    [watchAndRun]. [None] while the function has not returned. *)
Definition returns (r : tail_result * list event) (ls : list Watch.label)
  : option (option error * list event) :=
  match r with
  | (Done err, w) => Some (err, w)
  | (Watching fn s, _) =>
      match Watch.run fn ls s with
      | Some s' =>
          match Watch.main s' with
          | Watch.Returned v => Some (v, Watch.world s')
          | _ => None
          end
      | None => None
      end
  end.

(** * The specification's wording, where it is compared with the code *)
Module SpecWords.

(** "split into at most two tokens on the first whitespace run": the
    separator is the whole run. *)
Fixpoint skip_spaces (s : string) : string :=
  match s with
  | String c rest => if re_space c then skip_spaces rest else s
  | EmptyString => EmptyString
  end.

Definition split_on_run (s : string) : list string :=
  match first_space s with
  | Some (before, after) => [before; skip_spaces after]
  | None => [s]
  end.

Definition split_tokens_run (TrimSpace : string -> string) (text : string)
  : list string :=
  let arg := TrimSpace text in
  if HasPrefix arg "-" then split_on_run arg else [].

Definition readArgsFile_split (TrimSpace : string -> string)
    (fs : gmap string (list string)) (file : string) : list string :=
  match fs !! file with
  | None => []
  | Some lines => concat (map (split_tokens_run TrimSpace) lines)
  end.

Section Plans.

Context {Plan : Type} (planner : Planner Plan).
Variables (args : list string) (autodetectEvent : bool) (jobID : string).

(** Execution-plan resolution, rules 1 to 4. *)
Definition eventName_words : string :=
  match args with
  | given :: _ => given
  | [] =>
      match remove_dups (GetEvents planner) with
      | [only] => only
      | _ =>
          match GetEvents planner with
          | first :: _ => if autodetectEvent then first else "push"
          | [] => "push"
          end
      end
  end.

Definition execPlan_words : Plan :=
  if decide (jobID ≠ "") then PlanJob planner jobID
  else PlanEvent planner eventName_words.

(** Filter-plan resolution, rules 1 to 4. *)
Definition filterPlan_words : Plan :=
  if decide (jobID ≠ "") then PlanJob planner jobID
  else match args with
       | given :: _ => PlanEvent planner given
       | [] =>
           match GetEvents planner with
           | first :: _ =>
               if autodetectEvent then PlanEvent planner first
               else PlanAll planner
           | [] => PlanAll planner
           end
       end.

End Plans.

End SpecWords.

(** * Further parts of the file *)

(** ** [configLocations] and the arguments [Execute] parses *)

Section ConfigLocations.

(** [filepath.Join]. *)
Variable Join : list string -> string.



End ConfigLocations.

(** ** The platform check of [newRunCommand] (lines 425-441) *)

(** The error numbers [os.Stat] may wrap. *)
Inductive Errno : Type :=
| ENOENT | EACCES | EPERM | EEXIST | ENOTEMPTY | ENOTDIR
| OtherErrno (code : nat).

(** [os.IsExist(err)] for the error of a system call: nil is [None]. *)
Definition IsExist (err : option Errno) : bool :=
  match err with
  | Some EEXIST | Some ENOTEMPTY => true
  | _ => false
  end.

Section Platforms.

Variable TrimSpace : string -> string.

(** The error of [os.Stat(v)], nil when the file is there. *)
Variable Stat : string -> option Errno.

(** [defaultImageSurvey(actrc)]: an error, or the files as they are once
    the chosen option is written to [actrc]. *)
Variable defaultImageSurvey : string -> error + gmap string (list string).

(** The loop of lines 429-434. *)
Definition cfgFound (cfgLocations : list string) : bool :=
  fold_left (fun cfgFound v => if IsExist (Stat v) then true else cfgFound)
    cfgLocations false.

(** Lines 425-441: the value of [input.platforms] afterwards. *)
Definition resolvePlatforms (platforms cfgLocations : list string)
  : result (list string) :=
  if decide (length platforms = 0) then
    if negb (cfgFound cfgLocations) && bool_decide (0 < length cfgLocations)
    then
      match defaultImageSurvey (nth 0 cfgLocations "") with
      | inl err => Fatal err
      | inr fs => Ok (readArgsFile TrimSpace fs (nth 0 cfgLocations "") true)
      end
    else Ok platforms
  else Ok platforms.

End Platforms.

(** ** The socket paths of [bugReport] (lines 154-158) *)

Module Sockets.

Fixpoint drop (n : nat) (s : string) : string :=
  match n, s with
  | S n', String _ rest => drop n' rest
  | _, _ => s
  end.

(** [strings.Split(p, "/")[0]]. *)
Definition Split_slash_0 (p : string) : string :=
  match first_byte "/"%char p with
  | Some (before, _) => before
  | None => p
  end.

(** [strings.TrimPrefix(s, prefix)]. *)
Definition TrimPrefix (s prefix : string) : string :=
  if HasPrefix s prefix then drop (String.length prefix) s else s.

(** [strings.Replace(s, old, new, 1)]: the leftmost occurrence of [old]. *)
Fixpoint replace_leftmost (old new s : string) : string :=
  if String.prefix old s then new +:+ drop (String.length old) s
  else match s with
       | EmptyString => EmptyString
       | String c rest => String c (replace_leftmost old new rest)
       end.

Definition Replace1 (s old new : string) : string :=
  if decide (old = new) then s else replace_leftmost old new s.

(** The body of the loop over [commonSocketPaths], up to [os.Stat]:
    [Getenv] is [os.Getenv]. *)
Definition expandSocketPath (Getenv : string -> string) (p : string)
  : string :=
  if HasPrefix p "$" then
    let v := Split_slash_0 p in
    Replace1 p v (Getenv (TrimPrefix v "$"))
  else p.

End Sockets.

(** ** The dispatch of [newRunCommand] (lines 297-417) *)

(** What [newRunCommand] goes on to do. *)
Inductive action (Plan : Type) : Type :=
| BugReport                             (* [return bugReport(...)] *)
| Fail (err : error)                    (* [return err] *)
| PrintList (filterPlan : Plan)         (* [return printList(filterPlan)] *)
| DrawGraph (filterPlan : Plan)         (* [return drawGraph(filterPlan)] *)
| RunPlan (plan : Plan) (eventName : string)
          (envs inputs secrets : gmap string string).
                                        (* on to lines 419-511 *)
Arguments BugReport {Plan}.
Arguments Fail {Plan} err.
Arguments PrintList {Plan} filterPlan.
Arguments DrawGraph {Plan} filterPlan.
Arguments RunPlan {Plan} plan eventName envs inputs secrets.

Section Dispatch.

Context {Plan : Type}.
Variable dotenv : gmap string (error + gmap string string).
Variable newSecrets : list string -> gmap string string.

(** The flags as [cmd.Flags()] returns them, and what
    [model.NewWorkflowPlanner] returns. The error of the bug-report lookup
    is dropped by the code. *)
Record Flags := {
  bug_report : bool;
  job : error + string;
  list_flag : error + bool;
  graph_flag : error + bool
}.

Definition dispatch (flags : Flags) (input : OverlayInput)
    (NewWorkflowPlanner : error + Planner Plan) (args : list string)
    (autodetectEvent : bool) : result (action Plan) :=
  if bug_report flags then Ok BugReport
  else
    try! maps := loadMaps dotenv newSecrets input in
    Ok match NewWorkflowPlanner with
       | inl err => Fail err
       | inr planner =>
           match job flags with
           | inl err => Fail err
           | inr jobID =>
               match list_flag flags with
               | inl err => Fail err
               | inr list =>
                   match graph_flag flags with
                   | inl err => Fail err
                   | inr graph =>
                       if list then
                         PrintList
                           (filterPlan planner args autodetectEvent jobID)
                       else if graph then
                         DrawGraph
                           (filterPlan planner args autodetectEvent jobID)
                       else
                         RunPlan
                           (execPlan planner args autodetectEvent jobID)
                           (eventName planner args autodetectEvent)
                           maps.1.1 maps.1.2 maps.2
                   end
               end
           end
       end.

End Dispatch.

(** * Concrete inputs of the examples *)

(** A configuration file whose first line separates flag and value by two
    spaces. *)
Definition actrc_double_space : gmap string (list string) :=
  {[ "/home/u/.actrc" := ["-P  ubuntu-latest=img"; "# images"; " --bind "] ]}.

(** An invocation with [--env A=cli --env B] and a [.env] file that sets
    [A] too; no input file, no secret file. *)
Definition dotenv_A : gmap string (error + gmap string string) :=
  {[ ".env" := inr {[ "A" := "file"; "C" := "c" ]} ]}.

Definition input_A : OverlayInput :=
  {| envs := Some ["A=cli"; "B"]; inputs := Some []; secrets := [];
     Envfile := ".env"; Inputfile := ".input"; Secretfile := ".secrets" |}.

(** An executor that succeeds, then fails, then succeeds again. *)
Definition fails_second (k : nat) : option error :=
  if decide (k = 1) then Some "exit status 1" else None.

(** An executor that always succeeds. *)
Definition succeeds (k : nat) : option error := None.

(** First pass, one change batch and its pass, and what the goroutine does
    next; then cancellation. *)
Definition one_batch_then_cancel : list Watch.label :=
  [Watch.IsRunning; Watch.FnReturns; Watch.Changes; Watch.FnReturns;
   Watch.IsRunning; Watch.FnReturns; Watch.CtxDone; Watch.Stop; Watch.Return].

(** First pass, one change batch and its pass, and cancellation at once. *)
Definition one_batch_cancel_at_once : list Watch.label :=
  [Watch.IsRunning; Watch.FnReturns; Watch.Changes; Watch.FnReturns;
   Watch.CtxDone; Watch.Stop; Watch.Return].

(** First pass and three change batches, then cancellation. *)
Definition three_batches_then_cancel : list Watch.label :=
  [Watch.IsRunning; Watch.FnReturns; Watch.Changes; Watch.FnReturns;
   Watch.Changes; Watch.FnReturns; Watch.Changes; Watch.FnReturns;
   Watch.CtxDone; Watch.Stop; Watch.Return].

(** * Properties *)

(** ** ConfigArgsLoader *)

Example regexpSplit2_flag_value :
  regexpSplit2 "-P ubuntu-latest=img" = ["-P"; "ubuntu-latest=img"].
Proof. reflexivity. Qed.

Example asciiTrimSpace_both_ends : asciiTrimSpace "  -W dir  " = "-W dir".
Proof. reflexivity. Qed.

(** A loop that appends to a slice builds the concatenation of what each
    iteration contributes. *)
Lemma fold_left_append {A B} (f : A -> list B) (l : list A) (acc : list B) :
  fold_left (fun acc x => acc ++ f x) l acc = acc ++ concat (map f l).
Proof.
  revert acc. induction l as [|x l IH]; intros acc; simpl.
  - by rewrite app_nil_r.
  - by rewrite IH, app_assoc.
Qed.

Lemma fold_left_pointwise {A B} (f g : B -> A -> B) (l : list A) (acc : B) :
  (forall acc x, f acc x = g acc x) -> fold_left f l acc = fold_left g l acc.
Proof.
  intros Hfg. revert acc. induction l as [|x l IH]; intros acc; simpl; [done|].
  by rewrite Hfg, IH.
Qed.

Section ConfigArgsLoaderFacts.

Variable TrimSpace : string -> string.
Variable fs : gmap string (list string).

Lemma readArgsLine_split acc text :
  readArgsLine TrimSpace true acc text = acc ++ split_tokens TrimSpace text.
Proof.
  unfold readArgsLine, split_tokens. simpl.
  destruct (HasPrefix (TrimSpace text) "-"); simpl; [done|].
  by rewrite app_nil_r.
Qed.

Lemma readArgsLine_no_split acc text :
  readArgsLine TrimSpace false acc text = acc ++ [TrimSpace text].
Proof.
  unfold readArgsLine. by rewrite andb_false_r.
Qed.

Lemma readArgsFile_missing file split :
  fs !! file = None -> readArgsFile TrimSpace fs file split = [].
Proof. intros H. unfold readArgsFile. by rewrite H. Qed.

Lemma readArgsFile_split_mode file lines :
  fs !! file = Some lines ->
  readArgsFile TrimSpace fs file true
  = concat (map (split_tokens TrimSpace) lines).
Proof.
  intros H. unfold readArgsFile. rewrite H.
  rewrite (fold_left_pointwise _ (fun acc x => acc ++ split_tokens TrimSpace x)).
  - by rewrite fold_left_append.
  - intros acc x. apply readArgsLine_split.
Qed.

Lemma readArgsFile_no_split_mode file lines :
  fs !! file = Some lines ->
  readArgsFile TrimSpace fs file false = map TrimSpace lines.
Proof.
  intros H. unfold readArgsFile. rewrite H.
  rewrite (fold_left_pointwise _ (fun acc x => acc ++ [TrimSpace x])).
  - rewrite fold_left_append. simpl. clear H.
    induction lines as [|x l IH]; simpl; [done|]. by f_equal.
  - intros acc x. apply readArgsLine_no_split.
Qed.

End ConfigArgsLoaderFacts.

(** The pieces of [regexpSplit2]. *)
Lemma first_space_none s : no_space s = true -> first_space s = None.
Proof.
  induction s as [|c s IH]; simpl; [done|].
  intros [Hc Hs]%andb_prop. apply negb_true_iff in Hc. rewrite Hc.
  by rewrite (IH Hs).
Qed.

Lemma first_space_cut before c after :
  no_space before = true -> re_space c = true ->
  first_space (before +:+ String c after) = Some (before, after).
Proof.
  intros Hb Hc. induction before as [|b before IH]; simpl in *.
  - by rewrite Hc.
  - apply andb_prop in Hb as [Hb1 Hb2]. apply negb_true_iff in Hb1.
    rewrite Hb1. by rewrite (IH Hb2).
Qed.

Lemma regexpSplit2_length s : length (regexpSplit2 s) <= 2.
Proof.
  unfold regexpSplit2. destruct s as [|c s]; simpl; [lia|].
  destruct (re_space c); simpl; [lia|].
  destruct (first_space s) as [[? ?]|]; simpl; lia.
Qed.

Lemma regexpSplit2_no_space s : no_space s = true -> regexpSplit2 s = [s].
Proof.
  intros H. unfold regexpSplit2. destruct s as [|c s]; [done|].
  by rewrite (first_space_none _ H).
Qed.

Lemma regexpSplit2_cut before c after :
  no_space before = true -> re_space c = true ->
  regexpSplit2 (before +:+ String c after) = [before; after].
Proof.
  intros Hb Hc. unfold regexpSplit2.
  rewrite (first_space_cut _ _ _ Hb Hc).
  by destruct before.
Qed.


(** A flag given on the command line comes after every flag a file gave. *)
Corollary args_command_line_last
    (TrimSpace : string -> string) (fs : gmap string (list string))
    (actrc : list string) (prog : string) (cmdline effective : list string) :
  args TrimSpace fs actrc (prog :: cmdline) = Some effective ->
  cmdline `suffix_of` effective.
Proof.
  unfold args. simpl. rewrite fold_left_append. intros [= <-].
  by apply suffix_app_r.
Qed.

(** C8, as worded, fails: a line whose flag and value are separated by two
    spaces is cut at the first space only, and the value keeps the second. *)
Lemma readArgsFile_cuts_one_space_only :
  readArgsFile asciiTrimSpace actrc_double_space "/home/u/.actrc" true
  = ["-P"; " ubuntu-latest=img"; "--bind"]
  /\ readArgsFile asciiTrimSpace actrc_double_space "/home/u/.actrc" true
     <> SpecWords.readArgsFile_split asciiTrimSpace actrc_double_space
          "/home/u/.actrc".
Proof. split; [reflexivity | discriminate]. Qed.

(** C8, amended: for every file that opens, split mode appends, in line
    order, the pieces of each trimmed line that starts with '-' and nothing
    for the other lines; the pieces are at most two, cut at the first
    white-space character (the rest of the line is kept whole, further
    white space included); no-split mode appends every trimmed line as it
    is. *)
Theorem readArgsFile_lines
    (TrimSpace : string -> string) (fs : gmap string (list string))
    (file : string) (lines : list string) :
  fs !! file = Some lines ->
  readArgsFile TrimSpace fs file true
    = concat (map (split_tokens TrimSpace) lines)
  /\ readArgsFile TrimSpace fs file false = map TrimSpace lines
  /\ (forall arg, length (regexpSplit2 arg) <= 2)
  /\ (forall before c after,
        no_space before = true -> re_space c = true ->
        regexpSplit2 (before +:+ String c after) = [before; after])
  /\ (forall arg, no_space arg = true -> regexpSplit2 arg = [arg]).
Proof.
  intros H. repeat split.
  - by apply readArgsFile_split_mode.
  - by apply readArgsFile_no_split_mode.
  - apply regexpSplit2_length.
  - apply regexpSplit2_cut.
  - apply regexpSplit2_no_space.
Qed.

Lemma readArgsFile_lines_witness :
  readArgsFile asciiTrimSpace actrc_double_space "/home/u/.actrc" true
  = concat (map (split_tokens asciiTrimSpace)
              ["-P  ubuntu-latest=img"; "# images"; " --bind "])
  /\ readArgsFile asciiTrimSpace actrc_double_space "/home/u/.actrc" false
     = ["-P  ubuntu-latest=img"; "# images"; "--bind"].
Proof.
  destruct (readArgsFile_lines asciiTrimSpace actrc_double_space
              "/home/u/.actrc"
              ["-P  ubuntu-latest=img"; "# images"; " --bind "])
    as (Hsplit & Hplain & _).
  - reflexivity.
  - split; [exact Hsplit | exact Hplain].
Defined.

(** ** KeyValueOverlay *)

Lemma SplitN_eq2_length s :
  length (SplitN_eq2 s) = 1 \/ length (SplitN_eq2 s) = 2.
Proof.
  unfold SplitN_eq2. destruct (first_byte _ s) as [[? ?]|]; simpl; auto.
Qed.

Example token_with_value :
  token_key "A=1=2" = "A" /\ token_value "A=1=2" = "1=2".
Proof. split; reflexivity. Qed.

Example token_bare : token_key "A" = "A" /\ token_value "A" = "".
Proof. split; reflexivity. Qed.

Lemma parseEnv_insert envs envVar :
  parseEnv envs envVar = <[token_key envVar := token_value envVar]> envs.
Proof.
  unfold parseEnv, token_key, token_value. by case_decide.
Qed.

(** After the explicit tokens, a key holds the value of the last token
    that names it. *)
Lemma parseEnvs_lookup (env : list string) (envs : gmap string string) k :
  (parseEnvs (Some env) envs).2 !! k
  = match last (filter (fun t => token_key t = k) env) with
    | Some t => Some (token_value t)
    | None => envs !! k
    end.
Proof.
  simpl. induction env as [|t env IH] using rev_ind; [done|].
  rewrite fold_left_app, filter_app. simpl. rewrite parseEnv_insert.
  rewrite filter_cons, filter_nil. case_decide as Hk.
  - subst k. by rewrite last_snoc, lookup_insert_eq.
  - rewrite app_nil_r, lookup_insert_ne by done. apply IH.
Qed.

(** The loop of [readEnvs] lays the file over the map. *)
Lemma readEnvs_loop (env envs : gmap string string) :
  map_fold (fun k v envs => <[k:=v]> envs) envs env = env ∪ envs.
Proof.
  apply (map_fold_weak_ind (fun r m => r = m ∪ envs)).
  - by rewrite (left_id_L ∅ (∪)).
  - intros i x m r _ ->. by rewrite insert_union_l.
Qed.

Section KeyValueOverlayFacts.

Variable dotenv : gmap string (error + gmap string string).

Lemma readEnvs_loaded path envs fenv :
  dotenv !! path = Some (inr fenv) ->
  readEnvs dotenv path envs = Ok (true, fenv ∪ envs).
Proof. intros H. unfold readEnvs. by rewrite H, readEnvs_loop. Qed.

Lemma readEnvs_missing path envs :
  dotenv !! path = None -> readEnvs dotenv path envs = Ok (false, envs).
Proof. intros H. unfold readEnvs. by rewrite H. Qed.

Lemma readEnvs_malformed path envs err :
  dotenv !! path = Some (inl err) -> readEnvs dotenv path envs = Fatal err.
Proof. intros H. unfold readEnvs. by rewrite H. Qed.

(** What a readable file leaves in the map: its own entries, and under
    them the entries the map had. *)
Lemma readEnvs_readable path envs :
  readable dotenv path = true ->
  exists b m,
    readEnvs dotenv path envs = Ok (b, m)
    /\ (forall fenv k v,
          dotenv !! path = Some (inr fenv) -> fenv !! k = Some v ->
          m !! k = Some v)
    /\ (forall fenv k,
          dotenv !! path = Some (inr fenv) -> fenv !! k = None ->
          m !! k = envs !! k)
    /\ (dotenv !! path = None -> m = envs).
Proof.
  unfold readable. intros Hr.
  destruct (dotenv !! path) as [[err|fenv]|] eqn:Hp; [done| |].
  - exists true, (fenv ∪ envs). split; [by apply readEnvs_loaded|].
    split; [|split]; [| |done].
    + intros ? k v [= <-] Hk. by apply lookup_union_Some_l.
    + intros ? k [= <-] Hk. by apply lookup_union_r.
  - exists false, envs. split; [by apply readEnvs_missing|].
    split; [|split]; done.
Qed.

End KeyValueOverlayFacts.

(** C9: whenever the env, input and secret files are missing or parse, the
    three maps are built, and every key that a loaded file sets holds the
    file's value in the resulting map, whatever the explicit tokens gave it
    (a token [key=value] gives [value], a bare [key] gives the empty
    string); a key the file does not set keeps the explicit value. *)
Theorem loadMaps_file_value_wins
    (dotenv : gmap string (error + gmap string string))
    (newSecrets : list string -> gmap string string) (input : OverlayInput) :
  forallb (readable dotenv)
    [Envfile input; Inputfile input; Secretfile input] = true ->
  exists e i s,
    loadMaps dotenv newSecrets input = Ok (e, i, s)
    /\ (forall fenv k v,
          dotenv !! Envfile input = Some (inr fenv) -> fenv !! k = Some v ->
          e !! k = Some v)
    /\ (forall fenv k v,
          dotenv !! Inputfile input = Some (inr fenv) -> fenv !! k = Some v ->
          i !! k = Some v)
    /\ (forall fenv k v,
          dotenv !! Secretfile input = Some (inr fenv) -> fenv !! k = Some v ->
          s !! k = Some v)
    /\ (forall fenv k,
          dotenv !! Envfile input = Some (inr fenv) -> fenv !! k = None ->
          e !! k = (parseEnvs (envs input) ∅).2 !! k)
    /\ (forall fenv k,
          dotenv !! Inputfile input = Some (inr fenv) -> fenv !! k = None ->
          i !! k = (parseEnvs (inputs input) ∅).2 !! k)
    /\ (forall env t,
          last (filter (fun t' => token_key t' = token_key t) env) = Some t ->
          (parseEnvs (Some env) ∅).2 !! token_key t = Some (token_value t)).
Proof.
  intros H. simpl in H.
  apply andb_prop in H as [He H]. apply andb_prop in H as [Hi H].
  apply andb_prop in H as [Hs _].
  destruct (readEnvs_readable dotenv (Envfile input)
              (parseEnvs (envs input) ∅).2 He) as (be & e & Ee & He1 & He2 & _).
  destruct (readEnvs_readable dotenv (Inputfile input)
              (parseEnvs (inputs input) ∅).2 Hi) as (bi & i & Ei & Hi1 & Hi2 & _).
  destruct (readEnvs_readable dotenv (Secretfile input)
              (newSecrets (secrets input)) Hs) as (bs & s & Es & Hs1 & _).
  exists e, i, s. unfold loadMaps. rewrite Ee. simpl. rewrite Ei. simpl.
  rewrite Es. simpl. repeat split; try done.
  intros env t Ht.
  pose proof (parseEnvs_lookup env ∅ (token_key t)) as Hl.
  rewrite Ht in Hl. exact Hl.
Qed.

Lemma loadMaps_file_value_wins_witness :
  exists e i s,
    loadMaps dotenv_A (fun _ => ∅) input_A = Ok (e, i, s)
    /\ (parseEnvs (envs input_A) ∅).2 !! "A" = Some "cli"
    /\ e !! "A" = Some "file"
    /\ e !! "B" = Some "".
Proof.
  destruct (loadMaps_file_value_wins dotenv_A (fun _ => ∅) input_A)
    as (e & i & s & E & He & _ & _ & Hkeep & _).
  - reflexivity.
  - exists e, i, s. split; [exact E|]. split; [reflexivity|]. split.
    + apply (He {[ "A" := "file"; "C" := "c" ]}); reflexivity.
    + rewrite (Hkeep {[ "A" := "file"; "C" := "c" ]}); reflexivity.
Defined.

(** ** EventPlanResolver *)

Section EventPlanResolverFacts.

Context {Plan : Type} (planner : Planner Plan).
Variables (autodetectEvent : bool) (jobID : string).

Lemma nonempty_length (s : string) : 0 < String.length s <-> s <> "".
Proof.
  destruct s as [|c s]; simpl; split; intros H; [lia | done | done | lia].
Qed.

(** Rule 1 of both resolutions: a positional argument is taken as it is. *)
Lemma eventName_given given rest :
  eventName planner (given :: rest) autodetectEvent = given.
Proof.
  unfold eventName. case_decide as H; [done|]. simpl in H. lia.
Qed.

Lemma filterEventName_given given rest :
  filterEventName planner (given :: rest) autodetectEvent = given.
Proof.
  unfold filterEventName. case_decide as H; [done|]. simpl in H. lia.
Qed.

(** Without a positional argument the discovered events decide. *)
Lemma eventName_not_given :
  eventName planner [] autodetectEvent
  = match GetEvents planner with
    | [] => "push"
    | first :: rest =>
        if decide (first = "") then "push"
        else if decide (rest = []) then first
        else if autodetectEvent then first
        else "push"
    end.
Proof.
  unfold eventName. case_decide as H; [simpl in H; lia|]. clear H.
  destruct (GetEvents planner) as [|first rest].
  - repeat case_decide; simpl in *; solve [done | lia | naive_solver lia].
  - change (nth 0 (first :: rest) "") with first.
    destruct first as [|c first], rest as [|r rest], autodetectEvent;
      repeat case_decide; simpl in *;
      solve [done | lia | naive_solver lia].
Qed.

Lemma filterEventName_not_given :
  filterEventName planner [] autodetectEvent
  = match GetEvents planner with
    | [] => ""
    | first :: _ => if autodetectEvent then first else ""
    end.
Proof.
  unfold filterEventName. case_decide as H; [simpl in H; lia|]. clear H.
  destruct (GetEvents planner) as [|first rest].
  - repeat case_decide; simpl in *; solve [done | lia | naive_solver lia].
  - change (nth 0 (first :: rest) "") with first.
    destruct first as [|c first], autodetectEvent;
      repeat case_decide; simpl in *;
      solve [done | lia | naive_solver lia].
Qed.

End EventPlanResolverFacts.

(** C1, as worded, fails: two workflows that both run on pull_request give
    one distinct discovered event, yet the plan is built for push. *)
Lemma execPlan_repeated_event_not_single :
  execPlan (requests ["pull_request"; "pull_request"]) [] false ""
  = ForEvent "push"
  /\ execPlan (requests ["pull_request"; "pull_request"]) [] false ""
     <> SpecWords.execPlan_words
          (requests ["pull_request"; "pull_request"]) [] false "".
Proof. split; [reflexivity | discriminate]. Qed.

(** The guard on the name of the first event is a second difference. *)
Example execPlan_unnamed_event_not_used :
  execPlan (requests [""; "push"]) [] true "" = ForEvent "push"
  /\ SpecWords.execPlan_words (requests [""; "push"]) [] true "" = ForEvent "".
Proof. split; reflexivity. Qed.

(** C1, amended: the event name is the positional argument when one was
    given; else the only entry of the discovered-event list when the list
    has exactly one entry and its name is not empty; else the first entry
    when auto-detect is on, the list is not empty and the first name is not
    empty; else "push". Then the plan is built by job ID when one was given,
    whatever the event name, and for the event name otherwise. *)
Theorem execPlan_precedence
    {Plan : Type} (planner : Planner Plan) (args : list string)
    (autodetectEvent : bool) (jobID : string) :
  (forall given rest, args = given :: rest ->
     eventName planner args autodetectEvent = given)
  /\ (forall only, args = [] -> GetEvents planner = [only] -> only <> "" ->
        eventName planner args autodetectEvent = only)
  /\ (forall first rest, args = [] -> GetEvents planner = first :: rest ->
        first <> "" -> autodetectEvent = true ->
        eventName planner args autodetectEvent = first)
  /\ (args = [] ->
      GetEvents planner = []
      \/ (exists rest, GetEvents planner = "" :: rest)
      \/ (autodetectEvent = false /\ length (GetEvents planner) <> 1) ->
      eventName planner args autodetectEvent = "push")
  /\ (jobID <> "" ->
      execPlan planner args autodetectEvent jobID = PlanJob planner jobID)
  /\ (jobID = "" ->
      execPlan planner args autodetectEvent jobID
      = PlanEvent planner (eventName planner args autodetectEvent)).
Proof.
  repeat split.
  - intros given rest ->. apply eventName_given.
  - intros only -> He Hne. rewrite eventName_not_given, He.
    by repeat case_decide.
  - intros first rest -> He Hne ->. rewrite eventName_not_given, He.
    by repeat case_decide.
  - intros -> H. rewrite eventName_not_given.
    destruct H as [->|[[rest ->]|[-> Hlen]]]; [done|done|].
    destruct (GetEvents planner) as [|first [|? ?]]; simpl in *;
      repeat case_decide; done.
  - intros Hj. unfold execPlan. by case_decide.
  - intros Hj. unfold execPlan. by case_decide.
Qed.

Lemma execPlan_precedence_witness :
  eventName (requests ["release"]) [] false = "release"
  /\ eventName (requests ["pull_request"; "pull_request"]) [] false = "push"
  /\ eventName (requests ["push"; "release"]) [] true = "push"
  /\ eventName (requests ["push"; "release"]) ["release"] true = "release"
  /\ execPlan (requests ["release"]) ["push"] false "build" = ForJob "build"
  /\ execPlan (requests ["release"]) ["push"] false "" = ForEvent "push".
Proof.
  split; [|split; [|split; [|split; [|split]]]].
  - destruct (execPlan_precedence (requests ["release"]) [] false "")
      as (_ & Honly & _).
    apply Honly; [reflexivity | reflexivity | discriminate].
  - destruct (execPlan_precedence
                (requests ["pull_request"; "pull_request"]) [] false "")
      as (_ & _ & _ & Hpush & _).
    apply Hpush; [reflexivity |].
    right. right. split; [reflexivity | discriminate].
  - destruct (execPlan_precedence (requests ["push"; "release"]) [] true "")
      as (_ & _ & Hfirst & _).
    apply (Hfirst "push" ["release"]);
      [reflexivity | reflexivity | discriminate | reflexivity].
  - destruct (execPlan_precedence (requests ["push"; "release"])
                ["release"] true "") as (Hgiven & _).
    apply (Hgiven "release" []). reflexivity.
  - destruct (execPlan_precedence (requests ["release"]) ["push"] false
                "build") as (_ & _ & _ & _ & Hjob & _).
    apply Hjob. discriminate.
  - destruct (execPlan_precedence (requests ["release"]) ["push"] false "")
      as (_ & _ & _ & _ & _ & Hevent).
    apply Hevent. reflexivity.
Defined.

(** C2, as worded, fails: an empty positional argument was given, yet the
    filter plan lists all jobs instead of the jobs of that event. *)
Lemma filterPlan_empty_argument_lists_all :
  filterPlan (requests ["push"]) [""] true "" = ForAll
  /\ filterPlan (requests ["push"]) [""] true ""
     <> SpecWords.filterPlan_words (requests ["push"]) [""] true "".
Proof. split; [reflexivity | discriminate]. Qed.

(** The same holds for a first discovered event without a name. *)
Example filterPlan_unnamed_event_lists_all :
  filterPlan (requests [""; "push"]) [] true "" = ForAll
  /\ SpecWords.filterPlan_words (requests [""; "push"]) [] true ""
     = ForEvent "".
Proof. split; reflexivity. Qed.

(** C2, amended: the filter plan is the plan of the job when a job ID was
    given; else the plan of the positional argument when one was given and
    it is not empty; else, when no positional argument was given, auto-detect
    is on and the first discovered event exists and has a non-empty name, the
    plan of that event; else the plan of all jobs. *)
Theorem filterPlan_precedence
    {Plan : Type} (planner : Planner Plan) (args : list string)
    (autodetectEvent : bool) (jobID : string) :
  (jobID <> "" ->
   filterPlan planner args autodetectEvent jobID = PlanJob planner jobID)
  /\ (forall given rest, jobID = "" -> args = given :: rest -> given <> "" ->
        filterPlan planner args autodetectEvent jobID
        = PlanEvent planner given)
  /\ (forall first rest, jobID = "" -> args = [] -> autodetectEvent = true ->
        GetEvents planner = first :: rest -> first <> "" ->
        filterPlan planner args autodetectEvent jobID
        = PlanEvent planner first)
  /\ (jobID = "" ->
      (exists rest, args = "" :: rest)
      \/ (args = []
          /\ (autodetectEvent = false
              \/ GetEvents planner = []
              \/ exists rest, GetEvents planner = "" :: rest)) ->
      filterPlan planner args autodetectEvent jobID = PlanAll planner).
Proof.
  repeat split.
  - intros Hj. unfold filterPlan. by case_decide.
  - intros given rest -> -> Hne. unfold filterPlan.
    rewrite filterEventName_given. by repeat case_decide.
  - intros first rest -> -> -> He Hne. unfold filterPlan.
    rewrite filterEventName_not_given, He. by repeat case_decide.
  - intros -> H. unfold filterPlan.
    destruct H as [[rest ->]|[-> H]].
    + rewrite filterEventName_given. by repeat case_decide.
    + rewrite filterEventName_not_given.
      destruct H as [->|[->|[rest ->]]].
      * destruct (GetEvents planner); by repeat case_decide.
      * by repeat case_decide.
      * destruct autodetectEvent; by repeat case_decide.
Qed.

Lemma filterPlan_precedence_witness :
  filterPlan (requests ["push"; "release"]) ["release"] false "build"
  = ForJob "build"
  /\ filterPlan (requests ["push"; "release"]) ["release"] false ""
     = ForEvent "release"
  /\ filterPlan (requests ["push"; "release"]) [] true "" = ForEvent "push"
  /\ filterPlan (requests ["push"; "release"]) [] false "" = ForAll.
Proof.
  split; [|split; [|split]].
  - destruct (filterPlan_precedence (requests ["push"; "release"])
                ["release"] false "build") as (Hjob & _).
    apply Hjob. discriminate.
  - destruct (filterPlan_precedence (requests ["push"; "release"])
                ["release"] false "") as (_ & Hgiven & _).
    apply (Hgiven "release" []); [reflexivity | reflexivity | discriminate].
  - destruct (filterPlan_precedence (requests ["push"; "release"])
                [] true "") as (_ & _ & Hfirst & _).
    apply (Hfirst "push" ["release"]);
      [reflexivity | reflexivity | reflexivity | reflexivity | discriminate].
  - destruct (filterPlan_precedence (requests ["push"; "release"])
                [] false "") as (_ & _ & _ & Hall).
    apply Hall; [reflexivity |].
    right. split; [reflexivity |]. left. reflexivity.
Defined.

(** C3, as worded, fails: a single discovered event whose name is empty is
    not selected by the execution plan, which falls back to push, nor by
    the filter plan under auto-detect, which lists all jobs. *)
Lemma single_unnamed_event_not_selected :
  GetEvents (requests [""]) = [""]
  /\ execPlan (requests [""]) [] false "" = ForEvent "push"
  /\ execPlan (requests [""]) [] false "" <> ForEvent ""
  /\ filterPlan (requests [""]) [] true "" <> ForEvent "".
Proof. repeat split; (reflexivity || discriminate). Qed.

(** C3, amended: with exactly one discovered event whose name is not
    empty, no positional argument and no job ID, the execution plan is the
    plan of that event whether auto-detect is on or off, and the filter plan
    is the plan of that event when auto-detect is on and the plan of all
    jobs when it is off. *)
Theorem single_event_resolution
    {Plan : Type} (planner : Planner Plan) (only : string)
    (autodetectEvent : bool) :
  GetEvents planner = [only] -> only <> "" ->
  execPlan planner [] autodetectEvent "" = PlanEvent planner only
  /\ filterPlan planner [] autodetectEvent ""
     = (if autodetectEvent then PlanEvent planner only else PlanAll planner).
Proof.
  intros He Hne. unfold execPlan, filterPlan.
  rewrite eventName_not_given, filterEventName_not_given, He.
  destruct autodetectEvent; by repeat case_decide.
Qed.

Lemma single_event_resolution_witness :
  (execPlan (requests ["release"]) [] false "" = ForEvent "release"
   /\ filterPlan (requests ["release"]) [] false "" = ForAll)
  /\ (execPlan (requests ["release"]) [] true "" = ForEvent "release"
      /\ filterPlan (requests ["release"]) [] true "" = ForEvent "release").
Proof.
  split.
  - apply (single_event_resolution (requests ["release"]) "release" false);
      [reflexivity | discriminate].
  - apply (single_event_resolution (requests ["release"]) "release" true);
      [reflexivity | discriminate].
Defined.

(** With no discovered event at all, execution falls back to push and
    filtering lists all jobs. *)
Example no_event_resolution :
  execPlan (requests []) [] false "" = ForEvent "push"
  /\ filterPlan (requests []) [] false "" = ForAll.
Proof. split; reflexivity. Qed.

(** ** ExecutionLifecycle *)

Lemma count_app e w1 w2 : count e (w1 ++ w2) = count e w1 + count e w2.
Proof. unfold count. by rewrite filter_app, length_app. Qed.

Lemma count_singleton e x : count e [x] = if decide (x = e) then 1 else 0.
Proof. unfold count. rewrite filter_cons, filter_nil. by case_decide. Qed.

Lemma NewPlanExecutor_world outcome w :
  (NewPlanExecutor outcome w).2 = w ++ [ExecRun].
Proof. done. Qed.

(** The plan executor neither starts nor cancels the artifact service. *)
Lemma NewPlanExecutor_keeps_service outcome w :
  count SvcStop (NewPlanExecutor outcome w).2 = count SvcStop w
  /\ count SvcStart (NewPlanExecutor outcome w).2 = count SvcStart w.
Proof.
  rewrite NewPlanExecutor_world, !count_app, !count_singleton.
  split; case_decide; (done || lia).
Qed.

(** [Finally] runs the cleanup after the main stage, whatever the main
    stage returned, and returns what the main stage returned. *)
Lemma Finally_runs_both (e finally : Executor) w :
  Finally e finally w = ((e w).1, (finally (e w).2).2).
Proof.
  unfold Finally, mbind', mret. destruct (e w) as [r w1]. simpl.
  by destruct (finally w1).
Qed.

(** C5: in non-watch mode, with an empty storage path the invocation
    neither starts nor cancels the artifact service: the executor run is
    all that happens. With a non-empty path the service is started, then
    the executor runs, then the cancellation function is invoked, each
    exactly once and in this order, whether the executor fails or not; in
    both cases the executor's result is what is returned. *)
Theorem runTail_service_lifecycle
    (artifactServerPath : string) (getwd : option error)
    (outcome : nat -> option error) (w : World) :
  (artifactServerPath = "" ->
   runTail artifactServerPath (inr false) getwd (NewPlanExecutor outcome) w
   = (Done (outcome (count ExecRun w)), w ++ [ExecRun]))
  /\ (artifactServerPath <> "" ->
      runTail artifactServerPath (inr false) getwd (NewPlanExecutor outcome) w
      = (Done (outcome (count ExecRun w)),
         w ++ [SvcStart; ExecRun; SvcStop])).
Proof.
  split; intros Hp; unfold runTail, Serve, mbind', mret, emit; case_decide;
    try done; simpl.
  rewrite count_app, count_singleton. case_decide; [done|].
  rewrite Nat.add_0_r, <- !app_assoc. done.
Qed.

Lemma runTail_service_lifecycle_witness :
  runTail "" (inr false) None (NewPlanExecutor fails_second) []
  = (Done None, [ExecRun])
  /\ runTail "/tmp/artifacts" (inr false) None
       (NewPlanExecutor fails_second) [ExecRun]
     = (Done (Some "exit status 1"), [ExecRun; SvcStart; ExecRun; SvcStop]).
Proof.
  split.
  - apply (runTail_service_lifecycle "" None fails_second []). reflexivity.
  - apply (runTail_service_lifecycle "/tmp/artifacts" None fails_second
             [ExecRun]).
    discriminate.
Defined.

(** Counted on a fresh invocation: one start and one cancellation with a
    storage path, none without. *)
Corollary runTail_service_counts
    (artifactServerPath : string) (getwd : option error)
    (outcome : nat -> option error) :
  let w := (runTail artifactServerPath (inr false) getwd
              (NewPlanExecutor outcome) []).2 in
  count ExecRun w = 1
  /\ count SvcStart w = (if decide (artifactServerPath = "") then 0 else 1)
  /\ count SvcStop w = (if decide (artifactServerPath = "") then 0 else 1).
Proof.
  unfold runTail, Serve, mbind', mret, emit. by case_decide.
Qed.

(** When the flag lookup itself fails, the service that was started is
    left running and the executor is not run. *)
Example runTail_flag_error :
  runTail "/tmp/artifacts" (inl "flag accessed but not defined: watch") None
    (NewPlanExecutor succeeds) []
  = (Done (Some "flag accessed but not defined: watch"), [SvcStart]).
Proof. reflexivity. Qed.

(** ** WatchDriver *)

Module WatchFacts.

Import Watch.

Section Invariants.

Variable fn : Executor.

Lemma latest_assign_err s :
  latest (assign_err fn s) = err (assign_err fn s).
Proof.
  unfold latest, assign_err. destruct (fn (world s)) as [r w]. simpl.
  by rewrite last_snoc.
Qed.

(** What a step of the goroutine may change. *)
Lemma loop_step_frame l s s' :
  loop_step fn l s = Some s' ->
  main s' = main s /\ running s' = running s
  /\ ((err s' = err s /\ passes s' = passes s /\ world s' = world s)
      \/ (err s' = latest s' /\ world s' = (fn (world s)).2
          /\ passes s' = passes s ++ [(fn (world s)).1])).
Proof.
  unfold loop_step. intros H.
  destruct l, (loop s) eqn:Hpc; simplify_eq/=; try by auto 10.
  { destruct (running s) eqn:Hr; simplify_eq/=; by auto 10. }
  all: pose proof (latest_assign_err s) as Hl;
    unfold latest, assign_err in *;
    destruct (fn (world s)) as [r w] eqn:Hfn; simpl in *;
    destruct r; simplify_eq/=; auto 10.
Qed.

(** What a step of [watchAndRun] itself may change: never [err], never
    the record of completed passes, never the world. *)
Lemma main_step_frame l s s' :
  main_step l s = Some s' ->
  err s' = err s /\ passes s' = passes s /\ world s' = world s
  /\ loop s' = loop s /\ calls s' = calls s
  /\ (forall v, main s' = Returned v -> v = err s).
Proof.
  unfold main_step. intros H.
  destruct l, (main s) eqn:Hpc; simplify_eq/=;
    repeat split; try done; intros v Hv; by simplify_eq.
Qed.

Lemma step_cases l s s' :
  step fn l s = Some s' ->
  (forall v, main s <> Returned v)
  /\ (loop_step fn l s = Some s' \/ main_step l s = Some s').
Proof.
  unfold step. intros H.
  destruct (main s) eqn:Hm; [| | |done];
    (split; [done|]); destruct l; auto.
Qed.





(** The number of cancellations of the artifact service in the world
    only changes when the executor changes it. *)
Lemma stops_run ls s s' :
  (forall w, count SvcStop (fn w).2 = count SvcStop w) ->
  run fn ls s = Some s' ->
  count SvcStop (world s') = count SvcStop (world s).
Proof.
  intros Hfn. revert s. induction ls as [|l ls IH]; intros s Hrun;
    simpl in Hrun.
  - by simplify_eq.
  - destruct (step fn l s) as [s1|] eqn:Hs; [|done].
    rewrite (IH _ Hrun).
    apply step_cases in Hs as [_ [Hs|Hs]].
    + apply loop_step_frame in Hs as (_ & _ & [(_ & _ & ->)|(_ & -> & _)]);
        [done | apply Hfn].
    + apply main_step_frame in Hs as (_ & _ & -> & _). done.
Qed.

(** Cancellation is always answered: from any state in which
    [watchAndRun] still waits, the three steps of lines 597-599 can be
    taken and end in a return of the shared variable. *)
Lemma cancel_returns s :
  main s = AtDone ->
  exists s', run fn [CtxDone; Stop; Return] s = Some s'
             /\ main s' = Returned (err s).
Proof.
  intros Hm. unfold run, step, main_step. rewrite Hm. simpl. eauto.
Qed.

(** The slip of line 591: when a batch-triggered pass fails while the
    watcher is running, the [break] leaves the inner loop only, and the
    one step the goroutine can take next calls the executor again. *)
Lemma batch_failure_calls_again s e w :
  loop s = InBatchPass -> running s = true -> main s = AtDone ->
  fn (world s) = (Some e, w) ->
  exists s1 s2,
    step fn FnReturns s = Some s1
    /\ loop s1 = AtIsRunning /\ err s1 = Some e
    /\ (forall l s', loop_step fn l s1 = Some s' -> l = IsRunning)
    /\ step fn IsRunning s1 = Some s2
    /\ loop s2 = InFirstPass /\ calls s2 = S (calls s).
Proof.
  intros Hl Hr Hm Hfn.
  unfold step, loop_step, assign_err. rewrite Hm, Hl, Hfn. simpl.
  eexists _, _. split; [done|]. simpl. rewrite Hr.
  repeat split; try done.
  intros l s'. destruct l; simpl; by intros.
Qed.

(** The sibling path of line 585: when the first pass of an iteration
    fails, the goroutine ends. *)
Lemma first_failure_ends_loop s e w :
  loop s = InFirstPass -> main s = AtDone ->
  fn (world s) = (Some e, w) ->
  exists s1,
    step fn FnReturns s = Some s1
    /\ loop s1 = LoopExit /\ err s1 = Some e
    /\ (forall l, loop_step fn l s1 = None).
Proof.
  intros Hl Hm Hfn.
  unfold step, loop_step, assign_err. rewrite Hm, Hl, Hfn. simpl.
  eexists. split; [done|]. repeat split; try done.
  intros l. by destruct l.
Qed.

End Invariants.

End WatchFacts.

(** C4: the executor succeeds on its first invocation and fails on the
    second, batch-triggered one; the watcher is still running. The loop does
    not end there: the executor is invoked a third time, and since that pass
    succeeds the failure is overwritten, so that [watchAndRun] returns nil
    after three invocations. *)
Theorem watch_batch_failure_runs_third_pass :
  exists s,
    Watch.run (NewPlanExecutor fails_second) one_batch_then_cancel
      (Watch.start None []) = Some s
    /\ Watch.passes s = [None; Some "exit status 1"; None]
    /\ Watch.calls s = 3
    /\ count ExecRun (Watch.world s) = 3
    /\ Watch.batches s = 1
    /\ Watch.main s = Watch.Returned None.
Proof. eexists. split; [vm_compute; reflexivity|]. repeat split. Qed.

(** Only a cancellation that overtakes the goroutine keeps the failure. *)
Example watch_batch_failure_cancelled_at_once :
  exists s,
    Watch.run (NewPlanExecutor fails_second) one_batch_cancel_at_once
      (Watch.start None []) = Some s
    /\ Watch.calls s = 2
    /\ Watch.main s = Watch.Returned (Some "exit status 1").
Proof. eexists. split; [vm_compute; reflexivity|]. repeat split. Qed.

(** Three change batches and an executor that always succeeds: four
    invocations, and nil is returned. *)
Example watch_three_batches :
  exists s,
    Watch.run (NewPlanExecutor succeeds) three_batches_then_cancel
      (Watch.start None []) = Some s
    /\ Watch.calls s = 4
    /\ Watch.batches s = 3
    /\ Watch.main s = Watch.Returned None.
Proof. eexists. split; [vm_compute; reflexivity|]. repeat split. Qed.



(** C10: in watch mode the executor handed to [watchAndRun] is the plan
    executor itself, without cleanup stage; whatever the schedule, no state
    of the watch loop and no return of [newRunCommand] has seen one more
    cancellation of the artifact service than there was before the
    invocation, provided the plan executor itself cancels nothing. *)
Theorem watch_mode_never_cancels_service
    (artifactServerPath : string) (getwd : option error)
    (planExecutor : Executor) (w : list event) :
  (forall w', count SvcStop (planExecutor w').2 = count SvcStop w') ->
  exists s0 w0,
    runTail artifactServerPath (inr true) getwd planExecutor w
    = (Watching planExecutor s0, w0)
    /\ (forall ls s,
          Watch.run planExecutor ls s0 = Some s ->
          count SvcStop (Watch.world s) = count SvcStop w)
    /\ (forall ls v w',
          returns (runTail artifactServerPath (inr true) getwd planExecutor w)
            ls = Some (v, w') ->
          count SvcStop w' = count SvcStop w).
Proof.
  intros Hpe.
  assert (exists s0 w0,
    runTail artifactServerPath (inr true) getwd planExecutor w
    = (Watching planExecutor s0, w0)
    /\ count SvcStop (Watch.world s0) = count SvcStop w)
    as (s0 & w0 & Hrun & Hs0).
  { unfold runTail, Serve, mbind', mret, emit. case_decide; simpl.
    - eexists _, _. split; [done|]. by destruct getwd.
    - eexists _, _. split; [done|].
      assert (count SvcStop (w ++ [SvcStart]) = count SvcStop w) as E.
      { rewrite count_app, count_singleton. case_decide; [done | lia]. }
      by destruct getwd. }
  exists s0, w0. split; [exact Hrun|]. split.
  - intros ls s Hls. rewrite <- Hs0. by apply (WatchFacts.stops_run planExecutor ls).
  - intros ls v w' Hret. rewrite Hrun in Hret. simpl in Hret.
    destruct (Watch.run planExecutor ls s0) as [s|] eqn:Hls; [|done].
    destruct (Watch.main s); simplify_eq.
    rewrite <- Hs0. by apply (WatchFacts.stops_run planExecutor ls).
Qed.

Lemma watch_mode_never_cancels_service_witness :
  exists v w',
    returns (runTail "/tmp/artifacts" (inr true) None
               (NewPlanExecutor fails_second) [])
      one_batch_then_cancel = Some (v, w')
    /\ count SvcStart w' = 1
    /\ count SvcStop w' = 0.
Proof.
  eexists _, _. split; [vm_compute; reflexivity|]. split; [reflexivity|].
  destruct (watch_mode_never_cancels_service "/tmp/artifacts" None
              (NewPlanExecutor fails_second) [])
    as (s0 & w0 & _ & _ & Hret).
  - intros w1. apply NewPlanExecutor_keeps_service.
  - apply (Hret one_batch_then_cancel None). vm_compute. reflexivity.
Defined.

(** * Further properties *)

(** ** The configuration-file loader *)

Lemma first_space_some s before after :
  first_space s = Some (before, after) ->
  exists c, re_space c = true /\ no_space before = true
            /\ s = before +:+ String c after.
Proof.
  revert before. induction s as [|c s IH]; intros before H; simpl in H; [done|].
  destruct (re_space c) eqn:Hc.
  - simplify_eq. by exists c.
  - destruct (first_space s) as [[b a]|] eqn:Hs; [|done]. simplify_eq.
    destruct (IH b eq_refl) as (c' & Hc' & Hb & ->).
    exists c'. simpl. by rewrite Hc, Hb.
Qed.

Lemma first_space_none_inv s : first_space s = None -> no_space s = true.
Proof.
  induction s as [|c s IH]; simpl; [done|].
  destruct (re_space c); [done|].
  destruct (first_space s) as [[? ?]|]; [done|]. intros _. by rewrite IH.
Qed.

(** The two shapes of a cut. *)
Lemma regexpSplit2_cases (s : string) :
  (no_space s = true /\ regexpSplit2 s = [s])
  \/ (exists before c after,
        re_space c = true /\ no_space before = true
        /\ s = before +:+ String c after
        /\ regexpSplit2 s = [before; after]).
Proof.
  destruct (first_space s) as [[b a]|] eqn:Hs.
  - right. destruct (first_space_some _ _ _ Hs) as (c & Hc & Hb & E).
    exists b, c, a. repeat split; try done.
    unfold regexpSplit2. rewrite Hs. destruct s; [by destruct b|done].
  - left. pose proof (first_space_none_inv _ Hs) as Hn.
    split; [done|]. by apply regexpSplit2_no_space.
Qed.

(** X1: cutting a line loses exactly one white-space character: either the
    line has none and is the only piece, or there are two pieces, the first
    without white space, and the line is the first piece, one white-space
    character and the second piece. *)
Theorem regexpSplit2_pieces (s : string) :
  (no_space s = true /\ regexpSplit2 s = [s])
  \/ (exists before c after,
        re_space c = true /\ no_space before = true
        /\ s = before +:+ String c after
        /\ regexpSplit2 s = [before; after]).
Proof. apply regexpSplit2_cases. Qed.

(** X2: whatever a line contributes in split mode starts with a flag: the
    contribution is empty, or one token that starts with '-' and holds no
    white space, possibly followed by one value. *)
Theorem split_tokens_flag_first (TrimSpace : string -> string) (text : string) :
  split_tokens TrimSpace text = []
  \/ (exists flag,
        HasPrefix flag "-" = true /\ no_space flag = true
        /\ (split_tokens TrimSpace text = [flag]
            \/ exists value, split_tokens TrimSpace text = [flag; value])).
Proof.
  unfold split_tokens. simpl.
  destruct (HasPrefix (TrimSpace text) "-") eqn:Hp; [|by left]. right.
  destruct (regexpSplit2_cases (TrimSpace text))
    as [[Hn ->]|(b & c & a & Hc & Hb & E & ->)].
  - exists (TrimSpace text). eauto.
  - exists b. split; [|eauto]. rewrite E in Hp.
    unfold HasPrefix in *. destruct b as [|b0 b]; simpl in *.
    + destruct (ascii_dec "-" c) as [<-|]; [done|].
      by destruct c as [[] [] [] [] [] [] [] []].
    + by destruct (ascii_dec "-" b0), b.
Qed.

(** X3: a file that cannot be opened gives no argument in either mode; a
    file that opens gives exactly one entry per line in no-split mode and at
    most two per line in split mode. *)
Theorem readArgsFile_length
    (TrimSpace : string -> string) (fs : gmap string (list string))
    (file : string) :
  (fs !! file = None ->
   forall split, readArgsFile TrimSpace fs file split = [])
  /\ (forall lines, fs !! file = Some lines ->
        length (readArgsFile TrimSpace fs file false) = length lines
        /\ length (readArgsFile TrimSpace fs file true) <= 2 * length lines).
Proof.
  split.
  - intros H split. by apply readArgsFile_missing.
  - intros lines H.
    rewrite (readArgsFile_no_split_mode _ _ _ _ H), length_map.
    split; [done|].
    rewrite (readArgsFile_split_mode _ _ _ _ H). clear H.
    induction lines as [|l lines IH]; simpl; [lia|].
    rewrite length_app.
    assert (length (split_tokens TrimSpace l) <= 2); [|lia].
    unfold split_tokens. simpl. destruct (HasPrefix _ _); simpl; [|lia].
    apply regexpSplit2_length.
Qed.

Lemma readArgsFile_length_witness :
  length (readArgsFile asciiTrimSpace actrc_double_space
            "/home/u/.actrc" false) = 3
  /\ length (readArgsFile asciiTrimSpace actrc_double_space
               "/home/u/.actrc" true) <= 6
  /\ readArgsFile asciiTrimSpace actrc_double_space "./.actrc" true = [].
Proof.
  destruct (readArgsFile_length asciiTrimSpace actrc_double_space
              "/home/u/.actrc") as [_ Hopen].
  destruct (Hopen ["-P  ubuntu-latest=img"; "# images"; " --bind "])
    as [Hplain Hsplit]; [reflexivity|].
  split; [exact Hplain|]. split; [exact Hsplit|].
  destruct (readArgsFile_length asciiTrimSpace actrc_double_space
              "./.actrc") as [Hmissing _].
  apply Hmissing. reflexivity.
Defined.

(** X4: when none of the candidate files can be opened, the arguments
    handed to flag parsing are the command line and nothing else. *)
Theorem args_without_config_files
    (TrimSpace : string -> string) (fs : gmap string (list string))
    (actrc : list string) (prog : string) (cmdline : list string) :
  (forall f, f ∈ actrc -> fs !! f = None) ->
  args TrimSpace fs actrc (prog :: cmdline) = Some cmdline.
Proof.
  intros H. unfold args. simpl. rewrite fold_left_append. simpl.
  do 2 f_equal. induction actrc as [|f actrc IH]; simpl; [done|].
  rewrite readArgsFile_missing by (apply H; left).
  simpl. apply IH. intros g Hg. apply H. by right.
Qed.

Lemma args_without_config_files_witness :
  args asciiTrimSpace ∅ ["/home/u/.actrc"; "./.actrc"] ["act"; "-l"; "push"]
  = Some ["-l"; "push"].
Proof.
  apply (args_without_config_files asciiTrimSpace ∅
           ["/home/u/.actrc"; "./.actrc"] "act" ["-l"; "push"]).
  intros f _. reflexivity.
Defined.

(** X5: in split mode the lines that do not start with '-' once trimmed
    (comments, blank lines) leave no trace: a file gives the same arguments
    as the file with those lines removed. *)
Theorem readArgsFile_ignores_other_lines
    (TrimSpace : string -> string) (fs : gmap string (list string))
    (file : string) (lines : list string) :
  fs !! file = Some lines ->
  readArgsFile TrimSpace
    (<[file := filter (fun l => HasPrefix (TrimSpace l) "-" = true) lines]> fs)
    file true
  = readArgsFile TrimSpace fs file true.
Proof.
  intros H.
  rewrite (readArgsFile_split_mode _ _ _ _ H).
  rewrite (readArgsFile_split_mode _ _ _
             (filter (fun l => HasPrefix (TrimSpace l) "-" = true) lines))
    by apply lookup_insert_eq.
  clear H. induction lines as [|l lines IH]; [done|].
  rewrite filter_cons. case_decide as Hl; simpl.
  - by rewrite IH.
  - rewrite IH. unfold split_tokens at 2. simpl.
    by destruct (HasPrefix (TrimSpace l) "-").
Qed.

Lemma readArgsFile_ignores_other_lines_witness :
  readArgsFile asciiTrimSpace
    (<["/home/u/.actrc" := ["-P  ubuntu-latest=img"; " --bind "]]>
       actrc_double_space) "/home/u/.actrc" true
  = readArgsFile asciiTrimSpace actrc_double_space "/home/u/.actrc" true.
Proof.
  apply (readArgsFile_ignores_other_lines asciiTrimSpace actrc_double_space
           "/home/u/.actrc"
           ["-P  ubuntu-latest=img"; "# images"; " --bind "]).
  reflexivity.
Defined.



(** ** The key=value overlay *)

Lemma first_byte_some sep s before after :
  first_byte sep s = Some (before, after) ->
  s = before +:+ String sep after /\ first_byte sep before = None.
Proof.
  revert before. induction s as [|c s IH]; intros before H; simpl in H; [done|].
  destruct (Ascii.eqb c sep) eqn:Hc.
  - apply Ascii.eqb_eq in Hc as ->. by simplify_eq.
  - destruct (first_byte sep s) as [[b a]|] eqn:Hs; [|done]. simplify_eq.
    destruct (IH b eq_refl) as [-> Hb]. simpl. by rewrite Hc, Hb.
Qed.

Lemma first_byte_cut sep before after :
  first_byte sep before = None ->
  first_byte sep (before +:+ String sep after) = Some (before, after).
Proof.
  induction before as [|c before IH]; simpl.
  - intros _. by rewrite Ascii.eqb_refl.
  - destruct (Ascii.eqb c sep); [done|].
    destruct (first_byte sep before) as [[? ?]|] eqn:Hb; [done|].
    intros _. by rewrite IH.
Qed.

(** X7: a token is cut at its first '=': either it holds none, and then it
    is its own key with the empty value, or it is its key, '=' and its
    value, and the key holds no '='. Nothing of the token is lost. *)
Theorem token_round_trip (envVar : string) :
  (first_byte "=" envVar = None
   /\ token_key envVar = envVar /\ token_value envVar = "")
  \/ (first_byte "=" (token_key envVar) = None
      /\ envVar = token_key envVar +:+ String "=" (token_value envVar)).
Proof.
  unfold token_key, token_value, SplitN_eq2.
  destruct (first_byte "=" envVar) as [[k v]|] eqn:H; simpl.
  - right. by destruct (first_byte_some _ _ _ _ H) as [-> Hk].
  - by left.
Qed.

Lemma filter_none {A} (P : A -> Prop) `{!forall x, Decision (P x)} (l : list A) :
  (forall x, x ∈ l -> ~ P x) -> filter P l = [].
Proof.
  induction l as [|x l IH]; intros Hl; [done|].
  rewrite filter_cons. case_decide as Hx.
  - destruct (Hl x); [by left | done].
  - apply IH. intros y Hy. apply Hl. by right.
Qed.

(** X8: among the explicit tokens the last one that names a key decides
    its value, and a key that no token names keeps the value the map had. *)
Theorem parseEnvs_last_token_wins (envs : gmap string string) :
  (forall before t after,
     (forall t', t' ∈ after -> token_key t' <> token_key t) ->
     (parseEnvs (Some (before ++ t :: after)) envs).2 !! token_key t
     = Some (token_value t))
  /\ (forall env k,
        (forall t, t ∈ env -> token_key t <> k) ->
        (parseEnvs (Some env) envs).2 !! k = envs !! k).
Proof.
  split.
  - intros before t after H. rewrite parseEnvs_lookup.
    rewrite filter_app, filter_cons. case_decide; [|done].
    rewrite (filter_none _ after) by done.
    by rewrite last_snoc.
  - intros env k H. rewrite parseEnvs_lookup.
    by rewrite (filter_none _ env).
Qed.

Lemma parseEnvs_last_token_wins_witness :
  (parseEnvs (Some ["A=1"; "B=x"; "A"; "C=3"]) {[ "D" := "d" ]}).2 !! "A"
  = Some ""
  /\ (parseEnvs (Some ["A=1"; "B=x"; "A"; "C=3"]) {[ "D" := "d" ]}).2 !! "D"
     = Some "d".
Proof.
  destruct (parseEnvs_last_token_wins {[ "D" := "d" ]}) as [Hlast Hkeep].
  split.
  - apply (Hlast ["A=1"; "B=x"] "A" ["C=3"]).
    intros t' Ht'. apply list_elem_of_singleton in Ht' as ->. discriminate.
  - rewrite (Hkeep ["A=1"; "B=x"; "A"; "C=3"] "D"); [reflexivity|].
    intros t Ht.
    repeat (apply elem_of_cons in Ht as [->|Ht]; [discriminate|]).
    by apply elem_of_nil in Ht.
Defined.

(** X9: after the explicit tokens the map has the keys it had and the keys
    of the tokens, and no other. *)
Theorem parseEnvs_dom (env : list string) (envs : gmap string string) :
  dom (parseEnvs (Some env) envs).2
  = dom envs ∪ list_to_set (token_key <$> env).
Proof.
  simpl. revert envs. induction env as [|t env IH]; intros envs; simpl.
  - by rewrite (right_id_L ∅ (∪)).
  - rewrite IH, parseEnv_insert, dom_insert_L.
    rewrite (comm_L (∪) {[token_key t]} (dom envs)).
    by rewrite (assoc_L (∪)).
Qed.

(** X10: reading a file into a map is idempotent: reading it again into
    the result changes nothing. *)
Theorem readEnvs_idempotent
    (dotenv : gmap string (error + gmap string string)) (path : string)
    (envs m : gmap string string) (b : bool) :
  readEnvs dotenv path envs = Ok (b, m) ->
  readEnvs dotenv path m = Ok (b, m).
Proof.
  unfold readEnvs. destruct (dotenv !! path) as [[err|fenv]|]; [done| |].
  - rewrite !readEnvs_loop. intros [= <- <-].
    by rewrite (assoc_L (∪)), (idemp_L (∪)).
  - by intros [= <- <-].
Qed.

Lemma readEnvs_idempotent_witness :
  readEnvs dotenv_A ".env" {[ "A" := "file"; "C" := "c"; "B" := "" ]}
  = Ok (true, {[ "A" := "file"; "C" := "c"; "B" := "" ]}).
Proof.
  apply (readEnvs_idempotent dotenv_A ".env" {[ "A" := "cli"; "B" := "" ]}).
  vm_compute. reflexivity.
Defined.

(** X11: the maps cannot be built exactly when one of the three files is
    there and does not parse, and the message is that of the first such
    file in the order env, input, secret. *)
Theorem loadMaps_fatal
    (dotenv : gmap string (error + gmap string string))
    (newSecrets : list string -> gmap string string) (input : OverlayInput)
    (msg : string) :
  loadMaps dotenv newSecrets input = Fatal msg
  <-> dotenv !! Envfile input = Some (inl msg)
      \/ (readable dotenv (Envfile input) = true
          /\ dotenv !! Inputfile input = Some (inl msg))
      \/ (readable dotenv (Envfile input) = true
          /\ readable dotenv (Inputfile input) = true
          /\ dotenv !! Secretfile input = Some (inl msg)).
Proof.
  unfold loadMaps, readEnvs, readable.
  destruct (dotenv !! Envfile input) as [[e1|f1]|];
    destruct (dotenv !! Inputfile input) as [[e2|f2]|];
    destruct (dotenv !! Secretfile input) as [[e3|f3]|]; simpl;
    split; intros H; intuition congruence.
Qed.

Lemma loadMaps_fatal_witness :
  loadMaps {[ ".input" := inl "unexpected character in line 3" ]}
    (fun _ => ∅) input_A
  = Fatal "unexpected character in line 3".
Proof.
  apply (loadMaps_fatal {[ ".input" := inl "unexpected character in line 3" ]}
           (fun _ => ∅) input_A "unexpected character in line 3").
  right. left. split; reflexivity.
Defined.

(** When none of the three files is there, the env and input maps
    hold the explicit tokens and nothing else, and the secrets are what
    [newSecrets] made of the explicit secrets. *)
Theorem loadMaps_without_files
    (dotenv : gmap string (error + gmap string string))
    (newSecrets : list string -> gmap string string) (input : OverlayInput) :
  dotenv !! Envfile input = None ->
  dotenv !! Inputfile input = None ->
  dotenv !! Secretfile input = None ->
  loadMaps dotenv newSecrets input
  = Ok ((parseEnvs (envs input) ∅).2, (parseEnvs (inputs input) ∅).2,
        newSecrets (secrets input)).
Proof.
  intros He Hi Hs. unfold loadMaps, readEnvs. by rewrite He, Hi, Hs.
Qed.

Lemma loadMaps_without_files_witness :
  loadMaps ∅ (fun _ => ∅) input_A
  = Ok ({[ "A" := "cli"; "B" := "" ]}, ∅, ∅).
Proof.
  rewrite (loadMaps_without_files ∅ (fun _ => ∅) input_A);
    [|reflexivity..].
  vm_compute. reflexivity.
Defined.

(** ** The two plans *)

(** When the filter resolution picks an event, the execution resolution
    picks the same one. *)
Lemma filterEventName_is_eventName
    {Plan : Type} (planner : Planner Plan) (args : list string)
    (autodetectEvent : bool) :
  filterEventName planner args autodetectEvent <> "" ->
  eventName planner args autodetectEvent
  = filterEventName planner args autodetectEvent.
Proof.
  destruct args as [|given rest].
  - rewrite eventName_not_given, filterEventName_not_given.
    destruct (GetEvents planner) as [|first events]; [done|].
    destruct autodetectEvent; [|done]. intros H. by repeat case_decide.
  - by rewrite eventName_given, filterEventName_given.
Qed.

Lemma eventName_empty_inv
    {Plan : Type} (planner : Planner Plan) (args : list string)
    (autodetectEvent : bool) :
  eventName planner args autodetectEvent = "" ->
  exists rest, args = "" :: rest.
Proof.
  destruct args as [|given rest].
  - rewrite eventName_not_given.
    destruct (GetEvents planner) as [|first events]; [done|].
    destruct autodetectEvent; by repeat case_decide.
  - rewrite eventName_given. intros ->. by exists rest.
Qed.

(** X12: execution always has an event to run: the resolved event name is
    empty only when the user passed an empty positional argument. *)
Theorem eventName_never_empty
    {Plan : Type} (planner : Planner Plan) (args : list string)
    (autodetectEvent : bool) :
  eventName planner args autodetectEvent = "" ->
  exists rest, args = "" :: rest.
Proof. apply eventName_empty_inv. Qed.

Lemma eventName_never_empty_witness :
  eventName (requests ["push"]) [""] true = ""
  /\ exists rest, [""] = "" :: rest.
Proof.
  split; [reflexivity|].
  apply (eventName_never_empty (requests ["push"]) [""] true). reflexivity.
Defined.

(** X13: the list/graph plan and the plan that is run are the same plan
    whenever a job ID was given or the filter resolution picked an event;
    for the planner of requests they differ in every other case, where all
    jobs are listed but one event is run. *)
Theorem filterPlan_agrees_with_execPlan
    (args : list string) (autodetectEvent : bool) (jobID : string) :
  (forall (Plan : Type) (planner : Planner Plan),
     jobID <> "" \/ filterEventName planner args autodetectEvent <> "" ->
     filterPlan planner args autodetectEvent jobID
     = execPlan planner args autodetectEvent jobID)
  /\ (forall events,
        filterPlan (requests events) args autodetectEvent jobID
        = execPlan (requests events) args autodetectEvent jobID
        <-> jobID <> ""
            \/ filterEventName (requests events) args autodetectEvent <> "").
Proof.
  assert (forall (Plan : Type) (planner : Planner Plan),
     jobID <> "" \/ filterEventName planner args autodetectEvent <> "" ->
     filterPlan planner args autodetectEvent jobID
     = execPlan planner args autodetectEvent jobID) as Hagree.
  { intros Plan planner H. unfold filterPlan, execPlan.
    destruct (decide (jobID ≠ "")) as [|Hj]; [done|].
    destruct H as [?|Hf]; [done|].
    rewrite (filterEventName_is_eventName _ _ _ Hf). by case_decide. }
  split; [exact Hagree|].
  intros events. split; [|apply Hagree].
  unfold filterPlan, execPlan.
  destruct (decide (jobID ≠ "")) as [|Hj]; [by left|].
  destruct (decide (filterEventName (requests events) args autodetectEvent
                    ≠ "")) as [|Hf]; [by right|].
  simpl. discriminate.
Qed.

Lemma filterPlan_agrees_with_execPlan_witness :
  filterPlan (requests ["push"; "release"]) [] true ""
  = execPlan (requests ["push"; "release"]) [] true ""
  /\ filterPlan (requests ["push"; "release"]) [] false ""
     <> execPlan (requests ["push"; "release"]) [] false "".
Proof.
  split.
  - destruct (filterPlan_agrees_with_execPlan [] true "") as [Hagree _].
    apply Hagree. right. discriminate.
  - destruct (filterPlan_agrees_with_execPlan [] false "") as [_ Hiff].
    intros Heq. apply (Hiff ["push"; "release"]) in Heq as [H|H];
      by apply H.
Defined.

(** ** The platform check *)

Lemma cfgFound_false (Stat : string -> option Errno) (cfgLocations : list string) :
  (forall v, v ∈ cfgLocations -> IsExist (Stat v) = false) ->
  cfgFound Stat cfgLocations = false.
Proof.
  unfold cfgFound. intros H.
  induction cfgLocations as [|v l IH]; simpl; [done|].
  rewrite (H v) by (by left). apply IH. intros u Hu. apply H. by right.
Qed.

(** X14: a configuration file that is there never counts as found
    ([os.IsExist] of a nil error is false): when every candidate is either
    there or missing and no platform was given, the image survey is asked
    for the first candidate whether or not configuration files exist, and
    the platforms become the split-mode arguments of the file it wrote; its
    error is fatal. *)
Theorem resolvePlatforms_always_asks
    (TrimSpace : string -> string) (Stat : string -> option Errno)
    (defaultImageSurvey : string -> error + gmap string (list string))
    (first : string) (rest : list string) :
  (forall v, v ∈ first :: rest -> Stat v = None \/ Stat v = Some ENOENT) ->
  resolvePlatforms TrimSpace Stat defaultImageSurvey [] (first :: rest)
  = match defaultImageSurvey first with
    | inl err => Fatal err
    | inr fs => Ok (readArgsFile TrimSpace fs first true)
    end.
Proof.
  intros H. unfold resolvePlatforms.
  rewrite cfgFound_false; [|intros v Hv; by destruct (H v Hv) as [-> | ->]].
  rewrite decide_True by done.
  rewrite bool_decide_eq_true_2 by (simpl; lia).
  done.
Qed.

Lemma resolvePlatforms_always_asks_witness :
  resolvePlatforms asciiTrimSpace (fun _ => None)
    (fun actrc => inr {[ actrc := ["-P ubuntu-latest=node:16-buster-slim"] ]})
    [] ["/home/u/.actrc"; "./.actrc"]
  = Ok ["-P"; "ubuntu-latest=node:16-buster-slim"].
Proof.
  rewrite (resolvePlatforms_always_asks asciiTrimSpace (fun _ => None)
             (fun actrc =>
                inr {[ actrc := ["-P ubuntu-latest=node:16-buster-slim"] ]})
             "/home/u/.actrc" ["./.actrc"]).
  - reflexivity.
  - intros v _. by left.
Defined.

(** Platforms given on the command line or in a configuration file
    are kept as they are, and the survey is not asked. *)
Theorem resolvePlatforms_given
    (TrimSpace : string -> string) (Stat : string -> option Errno)
    (defaultImageSurvey : string -> error + gmap string (list string))
    (platforms cfgLocations : list string) :
  platforms <> [] ->
  resolvePlatforms TrimSpace Stat defaultImageSurvey platforms cfgLocations
  = Ok platforms.
Proof.
  intros H. unfold resolvePlatforms. case_decide as Hl; [|done].
  by destruct platforms.
Qed.

Lemma resolvePlatforms_given_witness :
  resolvePlatforms asciiTrimSpace (fun _ => Some ENOENT)
    (fun _ => inl "interrupt") ["ubuntu-latest=img"] ["/home/u/.actrc"]
  = Ok ["ubuntu-latest=img"].
Proof.
  apply (resolvePlatforms_given asciiTrimSpace (fun _ => Some ENOENT)
           (fun _ => inl "interrupt") ["ubuntu-latest=img"]
           ["/home/u/.actrc"]).
  discriminate.
Defined.

(** ** The socket paths of the bug report *)

Lemma prefix_app (v rest : string) : String.prefix v (v +:+ rest) = true.
Proof.
  induction v as [|c v IH]; simpl; [by destruct rest|].
  by destruct (ascii_dec c c).
Qed.

Lemma drop_app (v rest : string) :
  Sockets.drop (String.length v) (v +:+ rest) = rest.
Proof. induction v as [|c v IH]; simpl; [by destruct rest|done]. Qed.

Lemma HasPrefix_dollar (rest : string) : HasPrefix (String "$" rest) "$" = true.
Proof. unfold HasPrefix. simpl. by destruct rest. Qed.

Lemma TrimPrefix_dollar (name : string) :
  Sockets.TrimPrefix (String "$" name) "$" = name.
Proof. unfold Sockets.TrimPrefix, HasPrefix. simpl. by destruct name. Qed.

(** X15: a socket path that starts with a variable has the variable
    replaced by its value, an unset variable counting as empty, so that
    "$NAME/rest" becomes the value of NAME followed by "/rest"; a path that
    does not start with '$' is left as it is. *)
Theorem expandSocketPath_variable (Getenv : string -> string) :
  (forall name rest,
     first_byte "/" name = None ->
     Sockets.expandSocketPath Getenv ("$" +:+ name +:+ String "/" rest)
     = Getenv name +:+ String "/" rest)
  /\ (forall p, HasPrefix p "$" = false ->
        Sockets.expandSocketPath Getenv p = p).
Proof.
  split.
  - intros name rest Hname.
    unfold Sockets.expandSocketPath, Sockets.Split_slash_0.
    change ("$" +:+ name +:+ String "/" rest)
      with (String "$" name +:+ String "/" rest).
    rewrite (first_byte_cut "/" (String "$" name) rest)
      by (simpl; by rewrite Hname).
    rewrite TrimPrefix_dollar.
    change (String "$" name +:+ String "/" rest)
      with (String "$" (name +:+ String "/" rest)).
    rewrite HasPrefix_dollar.
    change (String "$" (name +:+ String "/" rest))
      with (String "$" name +:+ String "/" rest).
    unfold Sockets.Replace1. case_decide as Heq.
    + by rewrite <- Heq.
    + unfold Sockets.replace_leftmost.
      destruct (String "$" name +:+ String "/" rest) eqn:E; [done|].
      rewrite <- E. fold Sockets.replace_leftmost.
      by rewrite prefix_app, drop_app.
  - intros p Hp. unfold Sockets.expandSocketPath. by rewrite Hp.
Qed.

Lemma expandSocketPath_variable_witness :
  Sockets.expandSocketPath
    (fun name => if decide (name = "HOME") then "/home/u" else "")
    "$HOME/.colima/docker.sock" = "/home/u/.colima/docker.sock"
  /\ Sockets.expandSocketPath (fun _ => "") "$XDG_RUNTIME_DIR/docker.sock"
     = "/docker.sock"
  /\ Sockets.expandSocketPath (fun _ => "") "/var/run/docker.sock"
     = "/var/run/docker.sock".
Proof.
  split; [|split].
  - destruct (expandSocketPath_variable
                (fun name => if decide (name = "HOME") then "/home/u" else ""))
      as [Hvar _].
    apply (Hvar "HOME" ".colima/docker.sock"). reflexivity.
  - destruct (expandSocketPath_variable (fun _ => "")) as [Hvar _].
    apply (Hvar "XDG_RUNTIME_DIR" "docker.sock"). reflexivity.
  - destruct (expandSocketPath_variable (fun _ => "")) as [_ Hplain].
    apply Hplain. reflexivity.
Defined.

(** ** The dispatch of [newRunCommand] *)

(** X16: unless a bug report is asked for, an env, input or secret file
    that does not parse is fatal whatever else was asked (list, graph or
    run) and whatever the planner returned; with [--bug-report] the files
    are not read at all. Nothing else is fatal. *)
Theorem dispatch_fatal
    {Plan : Type} (dotenv : gmap string (error + gmap string string))
    (newSecrets : list string -> gmap string string)
    (flags : Flags) (input : OverlayInput)
    (NewWorkflowPlanner : error + Planner Plan) (args : list string)
    (autodetectEvent : bool) (msg : string) :
  dispatch dotenv newSecrets flags input NewWorkflowPlanner args
    autodetectEvent = Fatal msg
  <-> bug_report flags = false
      /\ loadMaps dotenv newSecrets input = Fatal msg.
Proof.
  unfold dispatch. destruct (bug_report flags); [by split; [|intros [? _]]|].
  destruct (loadMaps dotenv newSecrets input) as [m|maps]; simpl.
  - split; [by intros [= ->] | by intros [_ [= ->]]].
  - split; [done | by intros [_ ?]].
Qed.

Lemma dispatch_fatal_witness :
  dispatch {[ ".env" := inl "unexpected character in line 1" ]} (fun _ => ∅)
    {| bug_report := false; job := inr ""; list_flag := inr true;
       graph_flag := inr false |}
    input_A (inr (requests ["push"])) [] false
  = Fatal "unexpected character in line 1"
  /\ dispatch {[ ".env" := inl "unexpected character in line 1" ]}
       (fun _ => ∅)
       {| bug_report := true; job := inr ""; list_flag := inr true;
          graph_flag := inr false |}
       input_A (inr (requests ["push"])) [] false
     <> Fatal "unexpected character in line 1".
Proof.
  split.
  - apply (dispatch_fatal (Plan := PlanRequest)). split; reflexivity.
  - intros H. apply (dispatch_fatal (Plan := PlanRequest)) in H as [H _].
    discriminate H.
Defined.

(** X17: a plan is run only when neither a bug report, nor the list, nor
    the graph was asked for; it is then the execution plan of the loaded
    planner, run with the resolved event name and the three loaded maps. *)
Theorem dispatch_run_inv
    {Plan : Type} (dotenv : gmap string (error + gmap string string))
    (newSecrets : list string -> gmap string string)
    (flags : Flags) (input : OverlayInput)
    (NewWorkflowPlanner : error + Planner Plan) (args : list string)
    (autodetectEvent : bool) (plan : Plan) (event : string)
    (e i s : gmap string string) :
  dispatch dotenv newSecrets flags input NewWorkflowPlanner args
    autodetectEvent = Ok (RunPlan plan event e i s) ->
  bug_report flags = false
  /\ list_flag flags = inr false
  /\ graph_flag flags = inr false
  /\ loadMaps dotenv newSecrets input = Ok (e, i, s)
  /\ exists planner jobID,
       NewWorkflowPlanner = inr planner /\ job flags = inr jobID
       /\ plan = execPlan planner args autodetectEvent jobID
       /\ event = eventName planner args autodetectEvent.
Proof.
  unfold dispatch. destruct (bug_report flags); [done|].
  destruct (loadMaps dotenv newSecrets input) as [m|[[e' i'] s']]; [done|].
  simpl.
  destruct NewWorkflowPlanner as [?|planner]; [by intros [=]|].
  destruct (job flags) as [?|jobID]; [by intros [=]|].
  destruct (list_flag flags) as [?|[]], (graph_flag flags) as [?|[]];
    try by intros [=].
  intros [= <- <- <- <- <-]. repeat split. by exists planner, jobID.
Qed.

Lemma dispatch_run_inv_witness :
  dispatch dotenv_A (fun _ => ∅)
    {| bug_report := false; job := inr ""; list_flag := inr false;
       graph_flag := inr false |}
    input_A (inr (requests ["release"])) [] false
  = Ok (RunPlan (ForEvent "release") "release"
          {[ "A" := "file"; "B" := ""; "C" := "c" ]} ∅ ∅)
  /\ loadMaps dotenv_A (fun _ => ∅) input_A
     = Ok ({[ "A" := "file"; "B" := ""; "C" := "c" ]}, ∅, ∅).
Proof.
  assert (dispatch dotenv_A (fun _ => ∅)
    {| bug_report := false; job := inr ""; list_flag := inr false;
       graph_flag := inr false |}
    input_A (inr (requests ["release"])) [] false
  = Ok (RunPlan (ForEvent "release") "release"
          {[ "A" := "file"; "B" := ""; "C" := "c" ]} ∅ ∅)) as H.
  { vm_compute. reflexivity. }
  split; [exact H|].
  apply dispatch_run_inv in H as (_ & _ & _ & Hmaps & _). exact Hmaps.
Defined.

(** ** The watch loop: further invariants *)

Module WatchMore.

Import Watch.

(** One for a state inside a pass, zero otherwise. *)
Definition in_pass (pc : loop_pc) : nat :=
  match pc with
  | InFirstPass | InBatchPass => 1
  | _ => 0
  end.

(** All the ways a step can have been taken. *)
Ltac step_cases H :=
  unfold step, loop_step, main_step, assign_err in H;
  repeat match type of H with
         | context [match ?x with _ => _ end] => destruct x eqn:?
         end;
  simplify_eq/=.

Section Invariants.

Variable fn : Executor.

(** Passes are sequential: the invocations begun are the completed ones
    and at most one in progress. *)
Definition accounted (s : state) : Prop :=
  calls s = length (passes s) + in_pass (loop s).

Lemma accounted_step l s s' :
  accounted s -> step fn l s = Some s' -> accounted s'.
Proof.
  unfold accounted. intros Ha H. step_cases H;
    rewrite ?length_app; simpl; rewrite ?Ha;
    repeat match goal with E : loop _ = _ |- _ => rewrite E end;
    simpl; lia.
Qed.

Lemma run_invariant (P : state -> Prop) ls s s' :
  (forall l s s', P s -> step fn l s = Some s' -> P s') ->
  P s -> run fn ls s = Some s' -> P s'.
Proof.
  intros Hstep. revert s. induction ls as [|l ls IH]; intros s HP Hrun;
    simpl in Hrun.
  - by simplify_eq.
  - destruct (step fn l s) as [s1|] eqn:Hs; [|done].
    eapply IH; [|done]. by eapply Hstep.
Qed.








End Invariants.

End WatchMore.

(** When [os.Getwd] fails, [watchAndRun] returns that error at once:
    no step of the loop is taken, the executor is never invoked and the
    world is left as it was. *)
Theorem watchAndRun_getwd_failure
    (fn : Executor) (e : error) (w : list event) (ls : list Watch.label)
    (s : Watch.state) :
  Watch.run fn ls (Watch.start (Some e) w) = Some s ->
  ls = [] /\ Watch.main s = Watch.Returned (Some e)
  /\ Watch.calls s = 0 /\ Watch.world s = w.
Proof.
  destruct ls as [|l ls]; simpl.
  - by intros [= <-].
  - done.
Qed.

Lemma watchAndRun_getwd_failure_witness :
  Watch.main (Watch.start (Some "getwd: no such file or directory") [SvcStart])
  = Watch.Returned (Some "getwd: no such file or directory").
Proof.
  apply (watchAndRun_getwd_failure (NewPlanExecutor succeeds)
           "getwd: no such file or directory" [SvcStart] []).
  reflexivity.
Defined.

(** X18: passes never overlap: in every state of every run, the
    invocations of the executor begun so far are the completed passes plus
    one exactly when the goroutine is inside a pass. *)
Theorem watch_passes_sequential
    (fn : Executor) (getwd : option error) (w : list event)
    (ls : list Watch.label) (s : Watch.state) :
  Watch.run fn ls (Watch.start getwd w) = Some s ->
  Watch.calls s
  = length (Watch.passes s) + WatchMore.in_pass (Watch.loop s).
Proof.
  apply (WatchMore.run_invariant fn (WatchMore.accounted)).
  - apply WatchMore.accounted_step.
  - by destruct getwd.
Qed.

Lemma watch_passes_sequential_witness :
  exists s,
    Watch.run (NewPlanExecutor fails_second)
      [Watch.IsRunning; Watch.FnReturns; Watch.Changes] (Watch.start None [])
    = Some s
    /\ Watch.calls s = 2 /\ length (Watch.passes s) = 1
    /\ Watch.loop s = Watch.InBatchPass.
Proof.
  eexists. split; [vm_compute; reflexivity|].
  split; [|split; reflexivity].
  match goal with
  | |- Watch.calls ?s = _ =>
      apply (watch_passes_sequential (NewPlanExecutor fails_second) None []
               [Watch.IsRunning; Watch.FnReturns; Watch.Changes] s)
  end.
  vm_compute. reflexivity.
Defined.








(** X22: when a batch-triggered pass fails while the watcher is running
    and no cancellation has come, the loop does not end: the failure is
    assigned to the shared variable, and the only step the goroutine can
    take next is the outer loop condition, which holds and invokes the
    executor once more. *)
Theorem watch_batch_failure_calls_again
    (fn : Executor) (s : Watch.state) (e : error) (w : list event) :
  Watch.loop s = Watch.InBatchPass -> Watch.running s = true ->
  Watch.main s = Watch.AtDone -> fn (Watch.world s) = (Some e, w) ->
  exists s1 s2,
    Watch.step fn Watch.FnReturns s = Some s1
    /\ Watch.loop s1 = Watch.AtIsRunning /\ Watch.err s1 = Some e
    /\ (forall l s', Watch.loop_step fn l s1 = Some s' -> l = Watch.IsRunning)
    /\ Watch.step fn Watch.IsRunning s1 = Some s2
    /\ Watch.loop s2 = Watch.InFirstPass
    /\ Watch.calls s2 = S (Watch.calls s).
Proof. apply WatchFacts.batch_failure_calls_again. Qed.

Lemma watch_batch_failure_calls_again_witness :
  exists s2,
    Watch.run (NewPlanExecutor fails_second)
      [Watch.FnReturns; Watch.IsRunning]
      {| Watch.loop := Watch.InBatchPass; Watch.main := Watch.AtDone;
         Watch.err := None; Watch.running := true; Watch.world := [ExecRun];
         Watch.calls := 2; Watch.passes := [None]; Watch.batches := 1 |}
    = Some s2
    /\ Watch.loop s2 = Watch.InFirstPass /\ Watch.calls s2 = 3.
Proof.
  destruct (watch_batch_failure_calls_again
              (NewPlanExecutor fails_second)
              {| Watch.loop := Watch.InBatchPass; Watch.main := Watch.AtDone;
                 Watch.err := None; Watch.running := true;
                 Watch.world := [ExecRun]; Watch.calls := 2;
                 Watch.passes := [None]; Watch.batches := 1 |}
              "exit status 1" [ExecRun; ExecRun])
    as (s1 & s2 & H1 & _ & _ & _ & H2 & Hl & Hc);
    [reflexivity..|].
  exists s2. cbn [Watch.run]. rewrite H1, H2. repeat split; done.
Defined.

Lemma count_replicate_ExecRun (w : list event) n :
  count ExecRun (w ++ replicate n ExecRun) = count ExecRun w + n.
Proof.
  rewrite count_app. f_equal. induction n as [|n IH]; [done|].
  change (replicate (S n) ExecRun) with ([ExecRun] ++ replicate n ExecRun).
  rewrite count_app, IH. done.
Qed.

Lemma NewPlanExecutor_result outcome w :
  (NewPlanExecutor outcome w).1 = outcome (count ExecRun w).
Proof. done. Qed.

Lemma replicate_snoc {A} (x : A) n : replicate n x ++ [x] = replicate (S n) x.
Proof. induction n as [|n IH]; simpl; [done|]. by rewrite IH. Qed.

(** In watch mode the world only grows by executor runs, and the k-th
    pass gets the k-th outcome. *)
Lemma watch_world_run outcome (w0 : list event) ls s s' :
  count ExecRun w0 = 0 ->
  (exists n, Watch.world s = w0 ++ replicate n ExecRun
             /\ Watch.passes s = outcome <$> seq 0 n) ->
  Watch.run (NewPlanExecutor outcome) ls s = Some s' ->
  exists n, Watch.world s' = w0 ++ replicate n ExecRun
            /\ Watch.passes s' = outcome <$> seq 0 n.
Proof.
  intros Hw0. revert s. induction ls as [|l ls IH]; intros s Hs Hrun;
    simpl in Hrun.
  - by simplify_eq.
  - destruct (Watch.step (NewPlanExecutor outcome) l s) as [s1|] eqn:Hstep;
      [|done].
    apply (IH s1); [|done]. destruct Hs as (n & Hw & Hp).
    apply WatchFacts.step_cases in Hstep as [_ [Hstep|Hstep]].
    + apply WatchFacts.loop_step_frame in Hstep
        as (_ & _ & [(_ & -> & ->)|(_ & -> & ->)]).
      * by exists n.
      * exists (S n).
        rewrite NewPlanExecutor_world, NewPlanExecutor_result, Hw, Hp.
        rewrite count_replicate_ExecRun, Hw0.
        rewrite <- app_assoc, replicate_snoc, seq_S, fmap_app. done.
    + apply WatchFacts.main_step_frame in Hstep as (_ & -> & -> & _).
      by exists n.
Qed.

(** X23: in watch mode, on a fresh invocation, the world of every state of
    every run is the start of the artifact service (when a storage path is
    set) followed by one executor run per completed pass, and nothing else:
    the service is started once, before the first pass, however many passes
    follow; the k-th pass gets the k-th outcome of the executor. *)
Theorem watch_mode_world
    (artifactServerPath : string) (outcome : nat -> option error) :
  exists s0 w0,
    runTail artifactServerPath (inr true) None (NewPlanExecutor outcome) []
    = (Watching (NewPlanExecutor outcome) s0, w0)
    /\ forall ls s,
         Watch.run (NewPlanExecutor outcome) ls s0 = Some s ->
         Watch.world s
         = (if decide (artifactServerPath = "") then [] else [SvcStart])
           ++ replicate (length (Watch.passes s)) ExecRun
         /\ Watch.passes s = outcome <$> seq 0 (length (Watch.passes s)).
Proof.
  unfold runTail, Serve, mbind', mret, emit.
  case_decide; simpl; eexists _, _; (split; [done|]); intros ls s Hrun.
  - apply (watch_world_run outcome []) in Hrun as (n & Hw & Hp);
      [|reflexivity|by exists 0].
    assert (length (Watch.passes s) = n) as ->
      by (by rewrite Hp, length_fmap, length_seq).
    done.
  - apply (watch_world_run outcome [SvcStart]) in Hrun as (n & Hw & Hp);
      [|reflexivity|by exists 0].
    assert (length (Watch.passes s) = n) as ->
      by (by rewrite Hp, length_fmap, length_seq).
    done.
Qed.
